(** * lib/review.py: the Review record manager

    A shallow embedding of the [Review] class of [lib/review.py]: validated
    attributes, the rows of the [reviews] table, and the class-level identity
    cache [Review.all].

    Python objects are mutable and shared between the caller and the cache, so
    instances live in a heap and are named by references; every method is a
    function from the world before the call to an outcome (a value or a raised
    exception) and the world after it.  A raised exception keeps the effects
    made before it, as in Python. *)

From Stdlib Require Import ZArith String Ascii List Bool Lia.
From stdpp Require Import base option list gmap.

Local Open Scope Z_scope.

(** ** Python values *)

Module Py.

(** A [str] is a sequence of Unicode code points. *)
Definition str := list N.

(** A string literal of the sources (code points below 256). *)
Definition lit (s : string) : str := List.map N_of_ascii (list_ascii_of_string s).

(** The values that reach the setters.  [Bool] is kept apart from [Int]:
    [type(True) is int] is false although [isinstance(True, int)] holds.
    [Other] stands for a value of any further type (a float, a list, ...),
    none of them a subclass of [int] or [str]. *)
Inductive val :=
| None_
| Bool (b : bool)
| Int (n : Z)
| Str (s : str)
| Other (tag : nat).

(** [str.isspace] on one code point, the set [str.strip] removes. *)
Definition isspace (c : N) : bool :=
  ((9 <=? c) && (c <=? 13) || (28 <=? c) && (c <=? 32)
   || (c =? 133) || (c =? 160) || (c =? 5760)
   || (8192 <=? c) && (c <=? 8202)
   || (c =? 8232) || (c =? 8233) || (c =? 8239) || (c =? 8287)
   || (c =? 12288))%N.

Fixpoint lstrip (s : str) : str :=
  match s with
  | c :: s' => if isspace c then lstrip s' else s
  | [] => []
  end.

Definition rstrip (s : str) : str := rev (lstrip (rev s)).

(** [s.strip()] *)
Definition strip (s : str) : str := rstrip (lstrip s).

(** The exceptions of this module: the [ValueError] of the setters, the
    [AttributeError] of reading an attribute that was never assigned, and
    the errors of the [sqlite3] module when a statement is executed:
    [OverflowError] for an [int] outside the signed 64-bit range,
    [UnicodeEncodeError] for a [str] that has no UTF-8 encoding, and the
    subclasses of [sqlite3.Error], by name. *)
Inductive exn :=
| ValueError (msg : string)
| AttributeError (attr : string)
| OverflowError
| UnicodeEncodeError
| DatabaseError (kind : string).

End Py.

Abbreviation val := Py.val.
Abbreviation exn := Py.exn.

(** ** Outcomes *)

Inductive outcome (A : Type) :=
| Ok (a : A)
| Raise (e : exn).
Arguments Ok {A} a.
Arguments Raise {A} e.

(** ** Rows, instances and the world *)

(** The type affinity of a column: [year] and [employee_id] are declared
    [INTEGER], [summary] is declared [TEXT]. *)
Inductive affinity := INTEGER | TEXT.

(** A row of [reviews]: [row[0]] .. [row[3]], as [fetchone] and [fetchall]
    give them.  The primary key is an integer; the other columns hold the
    value the database made of what was stored. *)
Record Row := mkRow {
  row_id : Z;
  row_year : val;
  row_summary : val;
  row_employee_id : val
}.

(** An instance of [Review].  [id] is [None] or an integer; the three
    underscore attributes exist once their setter has run ([None] here: the
    attribute is not bound yet). *)
Record Review := mkReview {
  id : option Z;
  _year : option val;
  _summary : option val;
  _employee_id : option val
}.

(** References into the heap. *)
Abbreviation loc := nat.

(** The world: the [reviews] table in scan order, the answer of the Employee
    collaborator, the class attribute [Review.all], and the heap of instances.

    [employees v] tells whether [Employee.find_by_id(v)] yields an employee
    (a truthy value) or [None]; [lib/employee.py] is a collaborator the
    methods below only query.  The keys of [Review.all] are the values an
    [id] attribute takes: [None] or an integer.

    Two further fields stand for what the database does where this file does
    not spell it out (see the persistence backend below): [coerce a v] is the
    outcome of storing [v] in a column of affinity [a], in the cases left
    open there, and [pick_rowid keys] is the key the database picks at random
    when the largest key is in use, if it finds one. *)
Record World := mkWorld {
  reviews : list Row;
  employees : val -> bool;
  all : gmap (option Z) loc;
  heap : list Review;
  coerce : affinity -> val -> outcome val;
  pick_rowid : list Z -> option Z
}.

#[global] Instance Review_inhabited : Inhabited Review :=
  populate (mkReview None None None None).

(** ** The method monad *)

Definition M (A : Type) := World -> outcome A * World.

Definition ret {A} (a : A) : M A := fun w => (Ok a, w).
Definition raise {A} (e : exn) : M A := fun w => (Raise e, w).
Definition bind {A B} (m : M A) (k : A -> M B) : M B :=
  fun w => match m w with
           | (Ok a, w') => k a w'
           | (Raise e, w') => (Raise e, w')
           end.

Declare Scope py_scope.
Delimit Scope py_scope with py.
Notation "x <- m ;; k" := (bind m (fun x => k))
  (at level 100, m at next level, right associativity) : py_scope.
Notation "m ;; k" := (bind m (fun _ => k))
  (at level 100, right associativity) : py_scope.
Local Open Scope py_scope.

(** The object a reference names. *)
Definition deref (self : loc) (w : World) : Review := heap w !!! self.

Definition set_heap (h : list Review) (w : World) : World :=
  mkWorld (reviews w) (employees w) (all w) h (coerce w) (pick_rowid w).

(** [self.attr = v]: rewrite one object in place. *)
Definition setattr (self : loc) (f : Review -> Review) : M unit :=
  fun w => (Ok tt, set_heap (alter f self (heap w)) w).

(** Allocation of a new object; its reference is the next free one. *)
Definition alloc (r : Review) : M loc :=
  fun w => (Ok (length (heap w)), set_heap (heap w ++ [r]) w).

Definition set_id (v : option Z) (r : Review) : Review :=
  mkReview v (_year r) (_summary r) (_employee_id r).
Definition set_year (v : val) (r : Review) : Review :=
  mkReview (id r) (Some v) (_summary r) (_employee_id r).
Definition set_summary (v : val) (r : Review) : Review :=
  mkReview (id r) (_year r) (Some v) (_employee_id r).
Definition set_employee_id (v : val) (r : Review) : Review :=
  mkReview (id r) (_year r) (_summary r) (Some v).

(** ** Properties (getters and setters) *)

Definition getattr (name : string) (field : Review -> option val) (self : loc) : M val :=
  fun w => match field (deref self w) with
           | Some v => (Ok v, w)
           | None => (Raise (Py.AttributeError name), w)
           end.

Definition year : loc -> M val := getattr "_year" _year.
Definition summary : loc -> M val := getattr "_summary" _summary.
Definition employee_id : loc -> M val := getattr "_employee_id" _employee_id.

Definition year_setter (self : loc) (value : val) : M unit :=
  match value with
  | Py.Int n =>
      if n <? 2000 then raise (Py.ValueError "Year must be 2000 or later.")
      else setattr self (set_year value)
  | _ => raise (Py.ValueError "Year must be an integer.")
  end.

Definition summary_setter (self : loc) (value : val) : M unit :=
  match value with
  | Py.Str s =>
      if (length (Py.strip s) =? 0)%nat
      then raise (Py.ValueError "Summary must be a non-empty string.")
      else setattr self (set_summary value)
  | _ => raise (Py.ValueError "Summary must be a non-empty string.")
  end.

Definition employee_id_setter (self : loc) (value : val) : M unit :=
  fun w =>
    if employees w value
    then setattr self (set_employee_id value) w
    else raise (Py.ValueError "Employee must exist.") w.

(** [Review(year, summary, employee_id, id)] *)
Definition __init__ (year summary employee_id : val) (id : option Z) : M loc :=
  self <- alloc (mkReview id None None None) ;;
  year_setter self year ;;
  summary_setter self summary ;;
  employee_id_setter self employee_id ;;
  ret self.

(** ** The persistence backend

    The statements the methods issue through [CURSOR], on the table as the
    list of its rows in scan order (by key).  Each statement first binds its
    parameters, in order, and raises where [sqlite3] cannot bind one; a value
    that is stored goes through the affinity of its column.  Each statement
    is committed at once ([CONN.commit()] has no further effect here). *)

Definition set_reviews (t : list Row) (w : World) : World :=
  mkWorld t (employees w) (all w) (heap w) (coerce w) (pick_rowid w).

(** The largest key of a table. *)
Definition max_rowid : Z := 9223372036854775807.

(** The integers [sqlite3] can bind: the signed 64-bit range. *)
Definition int64 (n : Z) : bool := (- 9223372036854775808 <=? n) && (n <=? max_rowid).

(** A [str] with a surrogate code point has no UTF-8 encoding. *)
Definition surrogate (c : N) : bool := ((55296 <=? c) && (c <=? 57343))%N.
Definition encodable (s : Py.str) : bool := forallb (fun c => negb (surrogate c)) s.

(** The number of bytes of the UTF-8 encoding of a text, and the longest
    text the database takes (its default limit; at most 2^31 - 1 in any
    build). *)
Definition utf8_length (s : Py.str) : Z :=
  fold_right (fun c n => (if (c <? 128)%N then 1
                          else if (c <? 2048)%N then 2
                          else if (c <? 65536)%N then 3 else 4) + n) 0 s.
Definition max_length : Z := 1000000000.

(** The number a text of decimal digits denotes, the digits read from the
    left onto [acc]; [None] when a character is no digit. *)
Fixpoint digits (acc : Z) (s : Py.str) : option Z :=
  match s with
  | [] => Some acc
  | c :: s' =>
      if ((48 <=? c) && (c <=? 57))%N then digits (10 * acc + (Z.of_N c - 48)) s'
      else None
  end.

(** The integer a text denotes when it is an optional sign followed by one
    or more decimal digits and nothing else. *)
Definition integer_literal (s : Py.str) : option Z :=
  match s with
  | [] => None
  | 45%N :: c :: s' => Z.opp <$> digits 0 (c :: s')
  | 43%N :: c :: s' => digits 0 (c :: s')
  | _ => digits 0 s
  end.

(** What a column of affinity [a] holds, read back, after [v] was bound to a
    statement and stored in it; or the error of the binding.

    - [None] is stored as [NULL].
    - An [int] outside the signed 64-bit range cannot be bound; an [int]
      within it is stored as it is in an [INTEGER] column.  A [bool] is bound
      as the integer 0 or 1.
    - A [str] with a surrogate code point cannot be bound; another [str], of
      at most [max_length] bytes, is stored as it is in a [TEXT] column, and
      as the integer it denotes in an [INTEGER] column when it is a plain
      integer literal within 64 bits.
    - Every other case (a number in a [TEXT] column, another text in an
      [INTEGER] column, a text above [max_length], a value of another type)
      is left to [coerce]. *)
Definition column_value (w : World) (a : affinity) (v : val) : outcome val :=
  match v with
  | Py.None_ => Ok Py.None_
  | Py.Int n =>
      if int64 n
      then match a with INTEGER => Ok v | TEXT => coerce w a v end
      else Raise Py.OverflowError
  | Py.Bool b =>
      match a with INTEGER => Ok (Py.Int (Z.b2z b)) | TEXT => coerce w a v end
  | Py.Str s =>
      if encodable s
      then if utf8_length s <=? max_length
           then match a with
                | TEXT => Ok v
                | INTEGER =>
                    match integer_literal s with
                    | Some n => if int64 n then Ok (Py.Int n) else coerce w a v
                    | None => coerce w a v
                    end
                end
           else coerce w a v
      else Raise Py.UnicodeEncodeError
  | Py.Other _ => coerce w a v
  end.

(** Binding a value that is to be stored in a column of affinity [a]. *)
Definition store (a : affinity) (v : val) : M val :=
  fun w => (column_value w a v, w).

(** Binding the key of a [WHERE id = ?]. *)
Definition bind_key (key : option Z) : M unit :=
  match key with
  | Some k => if int64 k then ret tt else raise Py.OverflowError
  | None => ret tt
  end.

(** [WHERE id = ?]: a [NULL] parameter matches no row. *)
Definition where_id (key : option Z) (r : Row) : bool :=
  match key with
  | Some k => row_id r =? k
  | None => false
  end.

(** One more than the largest key in use, 1 in an empty table: the key of a
    new row as long as it is a key at all, that is at most [max_rowid] (see
    [new_rowid]). *)
Definition next_rowid (t : list Row) : Z :=
  match t with
  | [] => 1
  | r :: t' => 1 + fold_right Z.max (row_id r) (List.map row_id t')
  end.

(** The key the database gives to a row inserted without one:
    [next_rowid] as long as the largest key in use is below [max_rowid];
    otherwise a key between 1 and 2^62 picked at random among those not in
    use, and the error of a full database when none is found. *)
Definition new_rowid (w : World) : outcome Z :=
  let n := next_rowid (reviews w) in
  if n <=? max_rowid then Ok n
  else
    let keys := List.map row_id (reviews w) in
    match pick_rowid w keys with
    | Some k =>
        if (1 <=? k) && (k <=? 4611686018427387904)
           && negb (existsb (Z.eqb k) keys)
        then Ok k
        else Raise (Py.DatabaseError "OperationalError")
    | None => Raise (Py.DatabaseError "OperationalError")
    end.

(** The table with one more row, at its place in the order of the keys. *)
Fixpoint insert_row (r : Row) (t : list Row) : list Row :=
  match t with
  | [] => [r]
  | r0 :: t' => if row_id r <? row_id r0 then r :: t else r0 :: insert_row r t'
  end.

(** [INSERT INTO reviews (year, summary, employee_id) VALUES (?, ?, ?)];
    the result is [CURSOR.lastrowid]. *)
Definition sql_insert (y s e : val) : M Z :=
  y' <- store INTEGER y ;;
  s' <- store TEXT s ;;
  e' <- store INTEGER e ;;
  fun w =>
    match new_rowid w with
    | Ok n => (Ok n, set_reviews (insert_row (mkRow n y' s' e') (reviews w)) w)
    | Raise ex => (Raise ex, w)
    end.

(** [UPDATE reviews SET year = ?, summary = ?, employee_id = ? WHERE id = ?] *)
Definition sql_update (y s e : val) (key : option Z) : M unit :=
  y' <- store INTEGER y ;;
  s' <- store TEXT s ;;
  e' <- store INTEGER e ;;
  bind_key key ;;
  fun w =>
    (Ok tt,
     set_reviews
       (List.map (fun r => if where_id key r then mkRow (row_id r) y' s' e' else r)
                 (reviews w))
       w).

(** [DELETE FROM reviews WHERE id = ?] *)
Definition sql_delete (key : option Z) : M unit :=
  bind_key key ;;
  fun w =>
    (Ok tt, set_reviews (List.filter (fun r => negb (where_id key r)) (reviews w)) w).

(** [SELECT * FROM reviews WHERE id = ?] followed by [fetchone()] *)
Definition sql_select_one (key : option Z) : M (option Row) :=
  bind_key key ;;
  fun w => (Ok (List.find (where_id key) (reviews w)), w).

(** [SELECT * FROM reviews] followed by [fetchall()] *)
Definition sql_select_all : M (list Row) :=
  fun w => (Ok (reviews w), w).

(** ** The identity cache [Review.all] *)

Definition set_all (c : gmap (option Z) loc) (w : World) : World :=
  mkWorld (reviews w) (employees w) c (heap w) (coerce w) (pick_rowid w).

(** [Review.all[key] = review] *)
Definition all_setitem (key : option Z) (review : loc) : M unit :=
  fun w => (Ok tt, set_all (<[key := review]> (all w)) w).

(** [del Review.all[key]] *)
Definition all_delitem (key : option Z) : M unit :=
  fun w => (Ok tt, set_all (delete key (all w)) w).

(** [self.id] *)
Definition get_id (self : loc) : M (option Z) :=
  fun w => (Ok (id (deref self w)), w).

(** Truth value of an [id]: [None] and [0] are false. *)
Definition truthy (i : option Z) : bool :=
  match i with
  | Some n => negb (n =? 0)
  | None => false
  end.

(** ** Methods *)

Definition update (self : loc) : M unit :=
  y <- year self ;;
  s <- summary self ;;
  e <- employee_id self ;;
  i <- get_id self ;;
  sql_update y s e i.

Definition save (self : loc) : M unit :=
  i <- get_id self ;;
  if truthy i then update self
  else
    y <- year self ;;
    s <- summary self ;;
    e <- employee_id self ;;
    n <- sql_insert y s e ;;
    setattr self (set_id (Some n)) ;;
    i' <- get_id self ;;
    all_setitem i' self.

Definition create (year summary employee_id : val) : M loc :=
  review <- __init__ year summary employee_id None ;;
  save review ;;
  ret review.

Definition delete (self : loc) : M unit :=
  original_id <- get_id self ;;
  i <- get_id self ;;
  sql_delete i ;;
  setattr self (set_id None) ;;
  fun w =>
    match all w !! original_id with
    | Some _ => all_delitem original_id w
    | None => (Ok tt, w)
    end.

Definition instance_from_db (row : Row) : M loc :=
  fun w =>
    match all w !! Some (row_id row) with
    | Some review =>
        (year_setter review (row_year row) ;;
         summary_setter review (row_summary row) ;;
         employee_id_setter review (row_employee_id row) ;;
         ret review) w
    | None =>
        (review <- __init__ (row_year row) (row_summary row) (row_employee_id row)
                            (Some (row_id row)) ;;
         i <- get_id review ;;
         all_setitem i review ;;
         ret review) w
    end.

Fixpoint for_each {A B} (f : A -> M B) (l : list A) : M (list B) :=
  match l with
  | [] => ret []
  | a :: l' => b <- f a ;; bs <- for_each f l' ;; ret (b :: bs)
  end.

Definition get_all : M (list loc) :=
  rows <- sql_select_all ;;
  for_each instance_from_db rows.

Definition find_by_id (id : Z) : M (option loc) :=
  row <- sql_select_one (Some id) ;;
  match row with
  | Some r => review <- instance_from_db r ;; ret (Some review)
  | None => ret None
  end.

(** ** Running the methods on small worlds *)

Definition only (e : Z) : val -> bool :=
  fun v => match v with Py.Int n => n =? e | _ => false end.

(** The two parameters of the databases below: the value is kept as given
    in the cases [column_value] leaves open, and no key is found once the
    largest is in use.  No run on the worlds of this file reaches either
    case, [world_full] apart, which picks a key. *)
Definition as_given : affinity -> val -> outcome val := fun _ v => Ok v.
Definition no_rowid : list Z -> option Z := fun _ => None.

Definition world0 : World := mkWorld [] (only 5) ∅ [] as_given no_rowid.

Definition run {A} (m : M A) (w : World) : World := snd (m w).
Definition result {A} (m : M A) (w : World) : outcome A := fst (m w).


(** ** Vocabulary of the statements *)

(** A reference that names an object of the heap. *)
Definition allocated (self : loc) (w : World) : Prop := (self < length (heap w))%nat.

(** An integer (of exact type [int]) that is at least 2000. *)
Definition valid_year (v : val) : Prop := exists n, v = Py.Int n /\ 2000 <= n.

(** Not of exact type [int], or an [int] below 2000. *)
Definition invalid_year (v : val) : Prop :=
  (forall n, v <> Py.Int n) \/ (exists n, v = Py.Int n /\ n < 2000).

(** A string that is not empty once stripped. *)
Definition valid_summary (v : val) : Prop := exists s, v = Py.Str s /\ Py.strip s <> [].

(** The outcome is a raised validation error. *)
Definition validation_error {A} (r : outcome A) : Prop :=
  exists msg, r = Raise (Py.ValueError msg).

(** The database stores [v] in a column of affinity [a] as it is. *)
Definition storable (w : World) (a : affinity) (v : val) : Prop :=
  column_value w a v = Ok v.

(** The key can be bound: it is [None] or within the signed 64-bit range. *)
Definition key_ok (key : option Z) : Prop :=
  forall k, key = Some k -> int64 k = true.

(** Every key of the table is within the signed 64-bit range (as the keys
    of a table of the database are). *)
Definition keys_int64 (w : World) : Prop :=
  forall r, In r (reviews w) -> int64 (row_id r) = true.

(** A row whose columns pass the three setters. *)
Definition valid_row (w : World) (r : Row) : Prop :=
  valid_year (row_year r) /\ valid_summary (row_summary r)
  /\ employees w (row_employee_id r) = true.

(** The rows a statement keyed by [key] does not address. *)
Definition others (key : option Z) (t : list Row) : list Row :=
  List.filter (fun r => negb (where_id key r)) t.

(** A world with one saved review: [Review.create(2023, "Good work", 5)] run
    in [world0]. *)
Definition world1 : World :=
  run (create (Py.Int 2023) (Py.Str (Py.lit "Good work")) (Py.Int 5)) world0.

(** A key that has a row in the table. *)
Definition row_present (k : Z) (w : World) : Prop :=
  List.find (where_id (Some k)) (reviews w) <> None.

(** Two lookups of the same key in a row return the same object. *)
Definition identity_stable (k : Z) (w : World) : Prop :=
  exists review w1 w2,
    find_by_id k w = (Ok (Some review), w1)
    /\ find_by_id k w1 = (Ok (Some review), w2).




(** Every reference held by the cache names an object of the heap (as every
    Python reference does). *)
Definition cache_allocated (w : World) : Prop :=
  forall k l, all w !! k = Some l -> allocated l w.

(** Every key of the cache is the [id] of the object stored under it. *)
Definition cache_keys_agree (w : World) : Prop :=
  forall k l, all w !! k = Some l -> id (deref l w) = k.

(** The invariant of the cache: every key is an integer, and the object
    stored under it exists and has that integer as its [id]. *)
Definition cache_ok (w : World) : Prop :=
  forall k l, all w !! k = Some l ->
    exists z r, k = Some z /\ heap w !! l = Some r /\ id r = Some z.

(** The object at [l] exists and its [id] is [i]. *)
Definition obj_id (l : loc) (i : option Z) (w : World) : Prop :=
  exists r, heap w !! l = Some r /\ id r = i.

(** A property of worlds no assignment to an attribute other than [id] can
    break. *)
Definition id_stable (P : World -> Prop) : Prop :=
  forall f self w, (forall r, id (f r) = id r) -> P w ->
    P (set_heap (alter f self (heap w)) w).

(** From a world in [P], the method ends in [Q] when it returns and in [E]
    when it raises. *)
Definition ensures {A} (P : World -> Prop) (m : M A)
    (Q : A -> World -> Prop) (E : World -> Prop) : Prop :=
  forall w, P w ->
    match m w with
    | (Ok a, w') => Q a w'
    | (Raise _, w') => E w'
    end.

(** The method keeps [P], whether it returns or raises. *)
Definition preserves {A} (P : World -> Prop) (m : M A) : Prop :=
  ensures P m (fun _ => P) P.


(** [world1] once employee 5 is gone from the Employee table. *)
Definition world_orphan : World :=
  mkWorld (reviews world1) (fun _ => false) (all world1) (heap world1) as_given no_rowid.

(** [Review(2023, "Good work", 5, id=0)] built in [world0]. *)
Definition world_id0 : World :=
  run (__init__ (Py.Int 2023) (Py.Str (Py.lit "Good work")) (Py.Int 5) (Some 0)) world0.

(** A table that holds a row with key 0, and the world after
    [Review.find_by_id(0)] has materialised that row. *)
Definition table0 : World :=
  mkWorld [mkRow 0 (Py.Int 2023) (Py.Str (Py.lit "Good work")) (Py.Int 5)] (only 5) ∅ []
          as_given no_rowid.

Definition world_row0 : World := run (find_by_id 0) table0.

(** ** Programs that do not call [delete] *)

(** The Employee table changes behind the back of this class. *)
Definition set_employees (f : val -> bool) (w : World) : World :=
  mkWorld (reviews w) f (all w) (heap w) (coerce w) (pick_rowid w).

(** One step of a client of the class: the construction of an instance, an
    assignment to an attribute of an instance, a call of a method, or a
    change of the Employee table.  [delete] and [drop_table], which remove
    rows, are not among the steps. *)
Inductive op :=
| OpInit (y s e : val) (i : option Z)
| OpSetYear (self : loc) (v : val)
| OpSetSummary (self : loc) (v : val)
| OpSetEmployeeId (self : loc) (v : val)
| OpSetId (self : loc) (i : option Z)
| OpSave (self : loc)
| OpCreate (y s e : val)
| OpUpdate (self : loc)
| OpFindById (k : Z)
| OpGetAll
| OpInstanceFromDb (row : Row)
| OpEmployees (f : val -> bool).

(** The world after the step, whether the call returned or raised (the
    client goes on after an exception it has caught). *)
Definition step (o : op) (w : World) : World :=
  match o with
  | OpInit y s e i => run (__init__ y s e i) w
  | OpSetYear self v => run (year_setter self v) w
  | OpSetSummary self v => run (summary_setter self v) w
  | OpSetEmployeeId self v => run (employee_id_setter self v) w
  | OpSetId self i => run (setattr self (set_id i)) w
  | OpSave self => run (save self) w
  | OpCreate y s e => run (create y s e) w
  | OpUpdate self => run (update self) w
  | OpFindById k => run (find_by_id k) w
  | OpGetAll => run get_all w
  | OpInstanceFromDb row => run (instance_from_db row) w
  | OpEmployees f => set_employees f w
  end.

(** The world after the steps, from the left. *)
Definition exec (ops : list op) (w : World) : World :=
  fold_left (fun w o => step o w) ops w.

(** The cache holds [l] under [k], and the table has a row with key [k]. *)
Definition cached_row (k : Z) (l : loc) (w : World) : Prop :=
  all w !! Some k = Some l /\ row_present k w.

(** ** Vocabulary of the further properties *)

(** The string has a character that [str.strip] does not remove. *)
Definition visible (s : Py.str) : Prop := exists c, In c s /\ Py.isspace c = false.

(** The table and the Employee collaborator are those of [w0]. *)
Definition same_table (w0 w : World) : Prop :=
  reviews w = reviews w0 /\ employees w = employees w0.

(** The object at [l] is the image of the row [r], and the cache holds it
    under the key of [r]. *)
Definition image_of (w : World) (l : loc) (r : Row) : Prop :=
  heap w !! l
  = Some (mkReview (Some (row_id r)) (Some (row_year r)) (Some (row_summary r))
                   (Some (row_employee_id r)))
  /\ all w !! Some (row_id r) = Some l.


(** The three arguments pass their setters. *)
Definition valid_args (w : World) (y s e : val) : Prop :=
  valid_year y /\ valid_summary s /\ employees w e = true.

(** [world1] after [review.year = 2030] without [update]. *)
Definition world_unsaved : World := run (year_setter 0%nat (Py.Int 2030)) world1.

(** [world1] after a second [Review.create(2024, "Better", 5)]. *)
Definition world2 : World :=
  run (create (Py.Int 2024) (Py.Str (Py.lit "Better")) (Py.Int 5)) world1.

(** [world_unsaved] once employee 5 is gone from the Employee table. *)
Definition world_unsaved_orphan : World :=
  mkWorld (reviews world_unsaved) (fun _ => false) (all world_unsaved) (heap world_unsaved)
          as_given no_rowid.

(** Every key of the table is positive, and so is every id an object has. *)
Definition ids_positive (w : World) : Prop :=
  (forall r, In r (reviews w) -> 0 < row_id r)
  /\ (forall l o z, heap w !! l = Some o -> id o = Some z -> 0 < z).

(** The error of binding the three values of a write, in the order of the
    statement, if there is one. *)
Definition binding_error (w : World) (y s e : val) : option exn :=
  match column_value w INTEGER y with
  | Raise ex => Some ex
  | Ok _ =>
      match column_value w TEXT s with
      | Raise ex => Some ex
      | Ok _ =>
          match column_value w INTEGER e with
          | Raise ex => Some ex
          | Ok _ => None
          end
      end
  end.

(** The rows are in the order of their keys, without a key twice. *)
Fixpoint key_order (t : list Row) : Prop :=
  match t with
  | [] => True
  | r :: t' => (forall r', In r' t' -> row_id r < row_id r') /\ key_order t'
  end.

(** The table as the database keeps it: 64-bit keys, in order. *)
Definition table_ok (w : World) : Prop := key_order (reviews w) /\ keys_int64 w.

(** [world1] after [review.year = 2**63] without [update]. *)
Definition world_big_year : World :=
  run (year_setter 0%nat (Py.Int 9223372036854775808)) world1.

(** [world1] after [review.id = 2**63]. *)
Definition world_big_id : World :=
  run (setattr 0%nat (set_id (Some 9223372036854775808))) world1.


(* ================================================================== *)
(** * Theorems *)

(** ** Objects after an assignment *)

Lemma deref_set_heap_alter_eq self f w :
  allocated self w -> deref self (set_heap (alter f self (heap w)) w) = f (deref self w).
Proof. intros H. unfold deref. simpl. by apply list_lookup_total_alter_eq. Qed.

Lemma deref_new r w : deref (length (heap w)) (set_heap (heap w ++ [r]) w) = r.
Proof.
  unfold deref. simpl. apply list_lookup_total_correct.
  by rewrite lookup_app_r, Nat.sub_diag.
Qed.

Lemma alter_new f r (h : list Review) : alter f (length h) (h ++ [r]) = h ++ [f r].
Proof. by rewrite <- (Nat.add_0_r (length h)), alter_app_r. Qed.

Lemma valid_year_not_invalid v : valid_year v -> ~ invalid_year v.
Proof.
  intros (n & -> & Hn) [Hno | (m & Hm & Hlt)]; [by apply (Hno n) | ].
  injection Hm as <-. lia.
Qed.

Lemma year_cases v : valid_year v \/ invalid_year v.
Proof.
  destruct v as [ | b | n | s | t];
    try (right; left; intros n' Hn'; discriminate Hn').
  destruct (Z_lt_ge_dec n 2000) as [Hlt | Hge].
  - right. right. by exists n.
  - left. exists n. split; [done | lia].
Qed.

(** ** The setters, case by case *)

Lemma year_setter_valid self v w :
  valid_year v ->
  year_setter self v w = (Ok tt, set_heap (alter (set_year v) self (heap w)) w).
Proof.
  intros (n & -> & Hn). unfold year_setter.
  destruct (Z.ltb_spec n 2000) as [Hlt | _]; [lia | done].
Qed.

Lemma year_setter_invalid self v w :
  invalid_year v -> exists msg, year_setter self v w = (Raise (Py.ValueError msg), w).
Proof.
  intros [Hno | (n & -> & Hn)].
  - destruct v; try (eexists; reflexivity). by destruct (Hno n).
  - unfold year_setter. destruct (Z.ltb_spec n 2000) as [_ | Hge]; [ | lia].
    eexists; reflexivity.
Qed.

Lemma summary_setter_valid self v w :
  valid_summary v ->
  summary_setter self v w = (Ok tt, set_heap (alter (set_summary v) self (heap w)) w).
Proof.
  intros (s & -> & Hs). unfold summary_setter.
  destruct (Py.strip s) as [ | c s']; [done | reflexivity].
Qed.

Lemma summary_setter_invalid self v w :
  ~ valid_summary v ->
  summary_setter self v w
  = (Raise (Py.ValueError "Summary must be a non-empty string."), w).
Proof.
  intros Hv. destruct v as [ | b | n | s | t]; try reflexivity.
  unfold summary_setter. destruct (Py.strip s) as [ | c s'] eqn:Hs; [reflexivity | ].
  destruct Hv. exists s. split; [reflexivity | by rewrite Hs].
Qed.

Lemma summary_cases v : valid_summary v \/ ~ valid_summary v.
Proof.
  destruct v as [ | b | n | s | t];
    try (right; intros (s' & Hs' & _); discriminate Hs').
  destruct (Py.strip s) as [ | c s'] eqn:Hs.
  - right. intros (s0 & [= <-] & Hne). by apply Hne.
  - left. exists s. split; [reflexivity | by rewrite Hs].
Qed.

Lemma employee_id_setter_valid self v w :
  employees w v = true ->
  employee_id_setter self v w
  = (Ok tt, set_heap (alter (set_employee_id v) self (heap w)) w).
Proof. intros H. unfold employee_id_setter. by rewrite H. Qed.

Lemma employee_id_setter_invalid self v w :
  employees w v = false ->
  employee_id_setter self v w = (Raise (Py.ValueError "Employee must exist."), w).
Proof. intros H. unfold employee_id_setter. by rewrite H. Qed.

(** The constructor on arguments that pass the three setters: one new object,
    nothing else touched. *)
Lemma init_valid y s e i w :
  valid_year y -> valid_summary s -> employees w e = true ->
  __init__ y s e i w
  = (Ok (length (heap w)),
     set_heap (heap w ++ [mkReview i (Some y) (Some s) (Some e)]) w).
Proof.
  intros Hy Hs He. unfold __init__, bind, alloc, ret.
  rewrite (year_setter_valid _ _ _ Hy). cbn [heap set_heap].
  rewrite (summary_setter_valid _ _ _ Hs). cbn [heap set_heap].
  rewrite employee_id_setter_valid by exact He. cbn [heap set_heap].
  rewrite !alter_new. reflexivity.
Qed.

Lemma init_invalid_year y s e i w :
  invalid_year y -> validation_error (result (__init__ y s e i) w).
Proof.
  intros Hy. unfold result, __init__, bind, alloc.
  destruct (year_setter_invalid (length (heap w)) y
              (set_heap (heap w ++ [mkReview i None None None]) w) Hy) as [msg ->].
  by exists msg.
Qed.

(** ** Validation of [year] and [employee_id] *)

(** C4: assigning [year = v], by mutation or at construction, succeeds and
    leaves the attribute equal to [v] when [v] is an integer that is at least
    2000; it raises a validation error exactly when [v] is not an integer or
    is below 2000, and then the object (indeed the whole world) is unchanged. *)
Theorem year_assignment (self : loc) (v : val) (w : World) :
  allocated self w ->
  let r := result (year_setter self v) w in
  let w' := run (year_setter self v) w in
  (valid_year v -> r = Ok tt /\ year self w' = (Ok v, w'))
  /\ (validation_error r <-> invalid_year v)
  /\ (validation_error r -> w' = w)
  /\ (forall s e i,
        (invalid_year v -> validation_error (result (__init__ v s e i) w))
        /\ (valid_year v -> valid_summary s -> employees w e = true ->
            exists new,
              result (__init__ v s e i) w = Ok new
              /\ result (year new) (run (__init__ v s e i) w) = Ok v)).
Proof.
  intros Hself r w'. subst r w'. unfold result, run.
  repeat split.
  - by rewrite year_setter_valid.
  - rewrite year_setter_valid by done. cbn [snd].
    unfold year, getattr. rewrite deref_set_heap_alter_eq by done. reflexivity.
  - intros [msg Hmsg]. destruct (year_cases v) as [Hv | Hv]; [ | done].
    rewrite year_setter_valid in Hmsg by done. discriminate Hmsg.
  - intros Hv. destruct (year_setter_invalid self v w Hv) as [msg ->]. by exists msg.
  - intros [msg Hmsg]. destruct (year_cases v) as [Hv | Hv].
    + rewrite year_setter_valid in Hmsg by done. discriminate Hmsg.
    + by destruct (year_setter_invalid self v w Hv) as [msg' ->].
  - apply init_invalid_year.
  - intros Hy Hs He. exists (length (heap w)).
    rewrite init_valid by done. cbn [fst snd]. split; [done | ].
    unfold year, getattr. by rewrite deref_new.
Qed.

Lemma year_assignment_witness :
  allocated 0%nat world1
  /\ year 0%nat (run (year_setter 0%nat (Py.Int 2024)) world1)
     = (Ok (Py.Int 2024), run (year_setter 0%nat (Py.Int 2024)) world1).
Proof.
  assert (H : allocated 0%nat world1) by (unfold allocated; simpl; lia).
  split; [exact H | ].
  apply (year_assignment 0%nat (Py.Int 2024) world1 H).
  exists 2024. split; [reflexivity | lia].
Defined.

(** C10: a boolean is rejected by the [year] setter, by mutation and at
    construction, with the error of a value that is not an [int]; nothing is
    assigned. *)
Theorem year_rejects_bool (self : loc) (b : bool) (w : World) :
  year_setter self (Py.Bool b) w = (Raise (Py.ValueError "Year must be an integer."), w)
  /\ forall s e i,
      result (__init__ (Py.Bool b) s e i) w
      = Raise (Py.ValueError "Year must be an integer.").
Proof. split; reflexivity. Qed.

(** C5: assigning [employee_id = v] succeeds, leaving the attribute equal to
    [v], exactly when the Employee lookup finds a record for [v]; it raises a
    validation error exactly when the lookup finds none, and then the object
    (indeed the whole world) is unchanged. *)
Theorem employee_id_assignment (self : loc) (v : val) (w : World) :
  allocated self w ->
  let r := result (employee_id_setter self v) w in
  let w' := run (employee_id_setter self v) w in
  (r = Ok tt <-> employees w v = true)
  /\ (validation_error r <-> employees w v = false)
  /\ (r = Ok tt -> employee_id self w' = (Ok v, w'))
  /\ (validation_error r -> w' = w).
Proof.
  intros Hself r w'. subst r w'. unfold result, run.
  destruct (employees w v) eqn:He.
  - rewrite employee_id_setter_valid by done. cbn [fst snd].
    repeat split; try done.
    + intros [msg Hmsg]. discriminate Hmsg.
    + intros _. unfold employee_id, getattr.
      rewrite deref_set_heap_alter_eq by done. reflexivity.
    + intros [msg Hmsg]. discriminate Hmsg.
  - rewrite employee_id_setter_invalid by done. cbn [fst snd].
    repeat split; try done. intros _. by eexists.
Qed.

Lemma employee_id_assignment_witness :
  allocated 0%nat world1
  /\ (result (employee_id_setter 0%nat (Py.Int 5)) world1 = Ok tt
       <-> employees world1 (Py.Int 5) = true)
  /\ (validation_error (result (employee_id_setter 0%nat (Py.Int 6)) world1)
       <-> employees world1 (Py.Int 6) = false).
Proof.
  assert (H : allocated 0%nat world1) by (unfold allocated; simpl; lia).
  split; [exact H | split].
  - apply (employee_id_assignment 0%nat (Py.Int 5) world1 H).
  - apply (employee_id_assignment 0%nat (Py.Int 6) world1 H).
Defined.

(** ** The table *)

Lemma find_after_delete key (t : list Row) :
  List.find (where_id key) (List.filter (fun r => negb (where_id key r)) t) = None.
Proof.
  induction t as [ | r t IH]; [done | ]. simpl.
  destruct (where_id key r) eqn:Hr; simpl; [done | ]. by rewrite Hr.
Qed.

Lemma fold_max_ge a (l : list Z) : a <= fold_right Z.max a l.
Proof. induction l as [ | b l IH]; simpl; lia. Qed.

Lemma fold_max_elem a (l : list Z) x : In x l -> x <= fold_right Z.max a l.
Proof.
  induction l as [ | b l IH]; simpl; [done | ].
  intros [-> | Hx]; [lia | ]. specialize (IH Hx). lia.
Qed.

Lemma next_rowid_above (t : list Row) r : In r t -> row_id r < next_rowid t.
Proof.
  destruct t as [ | r0 t]; [done | ]. simpl. intros [<- | Hr].
  - pose proof (fold_max_ge (row_id r0) (List.map row_id t)). lia.
  - pose proof (fold_max_elem (row_id r0) (List.map row_id t) (row_id r)
                  (in_map row_id t r Hr)). lia.
Qed.

(** The key of an inserted row is in use by no row of the table. *)
Lemma next_rowid_fresh (t : list Row) :
  List.find (where_id (Some (next_rowid t))) t = None.
Proof.
  destruct (List.find (where_id (Some (next_rowid t))) t) as [r | ] eqn:Hfind; [ | done].
  apply find_some in Hfind as [Hin Hid]. simpl in Hid.
  apply next_rowid_above in Hin. lia.
Qed.



Lemma insert_row_last (r : Row) (t : list Row) :
  (forall r0, In r0 t -> row_id r0 < row_id r) -> insert_row r t = t ++ [r].
Proof.
  induction t as [ | r0 t IH]; [done | ]. intros Hall. simpl.
  pose proof (Hall r0 (or_introl eq_refl)).
  destruct (Z.ltb_spec (row_id r) (row_id r0)); [lia | ].
  rewrite IH; [done | ]. intros r1 Hr1. apply Hall. by right.
Qed.

Lemma insert_row_next (t : list Row) y s e :
  insert_row (mkRow (next_rowid t) y s e) t = t ++ [mkRow (next_rowid t) y s e].
Proof. apply insert_row_last. intros r0 Hr0. simpl. by apply next_rowid_above. Qed.

Lemma in_insert_row (r r0 : Row) (t : list Row) :
  In r0 (insert_row r t) <-> r0 = r \/ In r0 t.
Proof.
  induction t as [ | r1 t IH]; simpl.
  - split; [intros [<- | []]; by left | intros [-> | []]; by left].
  - destruct (row_id r <? row_id r1); simpl.
    + split; [intros [<- | H]; [by left | by right] | intros [-> | H]; [by left | by right]].
    + rewrite IH. tauto.
Qed.

Lemma find_insert_row_ne k (r : Row) (t : list Row) :
  row_id r <> k ->
  List.find (where_id (Some k)) (insert_row r t) = List.find (where_id (Some k)) t.
Proof.
  intros Hne. induction t as [ | r1 t IH]; simpl.
  - by destruct (Z.eqb_spec (row_id r) k).
  - destruct (row_id r <? row_id r1); simpl.
    + by destruct (Z.eqb_spec (row_id r) k).
    + by rewrite IH.
Qed.


(** The largest key in use is below [max_rowid]: the next key is free. *)
Lemma new_rowid_next w :
  next_rowid (reviews w) <= max_rowid -> new_rowid w = Ok (next_rowid (reviews w)).
Proof.
  intros H. unfold new_rowid.
  by destruct (Z.leb_spec (next_rowid (reviews w)) max_rowid); [ | lia].
Qed.

(** Whatever key the database gives to a new row, no row has it, and it is
    [next_rowid] or a positive key. *)
Lemma new_rowid_fresh w n :
  new_rowid w = Ok n ->
  List.find (where_id (Some n)) (reviews w) = None
  /\ (n = next_rowid (reviews w) \/ 0 < n).
Proof.
  unfold new_rowid. destruct (next_rowid (reviews w) <=? max_rowid).
  - intros [= <-]. split; [apply next_rowid_fresh | by left].
  - destruct (pick_rowid w (List.map row_id (reviews w))) as [k | ]; [ | done].
    destruct ((1 <=? k) && (k <=? 4611686018427387904)
              && negb (existsb (Z.eqb k) (List.map row_id (reviews w)))) eqn:Hk; [ | done].
    intros [= <-]. apply andb_true_iff in Hk as [Hrange Hfree].
    apply andb_true_iff in Hrange as [Hpos _]. apply Z.leb_le in Hpos.
    split; [ | right; lia].
    destruct (List.find (where_id (Some k)) (reviews w)) as [r | ] eqn:Hfind; [ | done].
    apply find_some in Hfind as [Hin Hid]. simpl in Hid. apply Z.eqb_eq in Hid.
    apply negb_true_iff in Hfree. rewrite <- not_true_iff_false in Hfree.
    destruct Hfree. apply existsb_exists. exists (row_id r).
    split; [by apply in_map | ]. apply Z.eqb_eq. by rewrite Hid.
Qed.

Lemma int_storable w n : int64 n = true -> storable w INTEGER (Py.Int n).
Proof. intros H. unfold storable, column_value. by rewrite H. Qed.

Lemma str_storable w s :
  encodable s = true -> utf8_length s <= max_length -> storable w TEXT (Py.Str s).
Proof.
  intros H Hlen. unfold storable, column_value. rewrite H.
  by destruct (Z.leb_spec (utf8_length s) max_length); [ | lia].
Qed.

Lemma others_update key y s e (t : list Row) :
  others key (List.map (fun r => if where_id key r then mkRow (row_id r) y s e else r) t)
  = others key t.
Proof.
  unfold others. induction t as [ | r t IH]; [done | ]. simpl.
  destruct (where_id key r) eqn:Hr; simpl.
  - destruct key as [k | ]; [ | done]. simpl in *. by rewrite Hr.
  - rewrite Hr. simpl. by rewrite IH.
Qed.

Lemma others_delete key (t : list Row) : others key (others key t) = others key t.
Proof.
  unfold others. induction t as [ | r t IH]; [done | ]. simpl.
  destruct (where_id key r) eqn:Hr; simpl; [done | ].
  rewrite Hr. simpl. by rewrite IH.
Qed.

(** ** The methods, case by case *)



(** Whatever [update] does, it returns a world that differs from the one it
    started in by the table at most, and the table is the old one or the old
    one with the addressed rows rewritten. *)
Lemma update_cases self w :
  update self w = (fst (update self w), w)
  \/ exists y' s' e',
       update self w
       = (Ok tt,
          set_reviews
            (List.map (fun r => if where_id (id (deref self w)) r
                                then mkRow (row_id r) y' s' e' else r) (reviews w)) w).
Proof.
  unfold update, bind, year, summary, employee_id, getattr, get_id, sql_update, store.
  destruct (_year (deref self w)) as [y | ]; [ | by left].
  destruct (_summary (deref self w)) as [s | ]; [ | by left].
  destruct (_employee_id (deref self w)) as [e | ]; [ | by left].
  unfold bind.
  destruct (column_value w INTEGER y) as [y' | ]; [ | by left].
  destruct (column_value w TEXT s) as [s' | ]; [ | by left].
  destruct (column_value w INTEGER e) as [e' | ]; [ | by left].
  unfold bind_key. destruct (id (deref self w)) as [k | ].
  - destruct (int64 k); [right; by exists y', s', e' | by left].
  - right. by exists y', s', e'.
Qed.

(** The rows an update does not address are the same afterwards, whether it
    returns or raises. *)
Lemma update_reviews self w :
  others (id (deref self w)) (reviews (run (update self) w))
  = others (id (deref self w)) (reviews w).
Proof.
  unfold run. destruct (update_cases self w) as [-> | (y' & s' & e' & ->)]; [done | ].
  cbn [snd reviews set_reviews]. apply others_update.
Qed.

Lemma delete_world self w :
  key_ok (id (deref self w)) ->
  delete self w
  = (Ok tt,
     mkWorld (others (id (deref self w)) (reviews w)) (employees w)
             (base.delete (id (deref self w)) (all w))
             (alter (set_id None) self (heap w)) (coerce w) (pick_rowid w)).
Proof.
  intros Hkey.
  unfold delete, bind, get_id, sql_delete, setattr, all_delitem, set_all, set_heap,
    set_reviews, others, bind_key.
  destruct (id (deref self w)) as [k | ] eqn:Hid;
    [rewrite (Hkey k eq_refl) | ]; unfold ret, bind; cbn [all reviews employees heap].
  - destruct (all w !! Some k) as [l | ] eqn:Hl; [done | ]. by rewrite delete_id.
  - destruct (all w !! None) as [l | ] eqn:Hl; [done | ]. by rewrite delete_id.
Qed.

Lemma key_ok_cases key : key_ok key \/ exists k, key = Some k /\ int64 k = false.
Proof.
  destruct key as [k | ]; [ | left; by intros k].
  destruct (int64 k) eqn:Hk; [left; by intros k0 [= <-] | right; by exists k].
Qed.

(** A key that cannot be bound makes [delete] raise before it has done
    anything. *)
Lemma delete_overflow self k w :
  id (deref self w) = Some k -> int64 k = false ->
  delete self w = (Raise Py.OverflowError, w).
Proof.
  intros Hid Hk. unfold delete, bind, get_id, sql_delete, bind_key.
  by rewrite Hid, Hk.
Qed.

(** [save] on an instance whose id is false and whose attributes are bound,
    when the database stores them as [y'], [s'] and [e'] and gives the key
    [n] to the new row. *)
Lemma save_stored self y s e y' s' e' n w :
  allocated self w ->
  truthy (id (deref self w)) = false ->
  _year (deref self w) = Some y ->
  _summary (deref self w) = Some s ->
  _employee_id (deref self w) = Some e ->
  column_value w INTEGER y = Ok y' ->
  column_value w TEXT s = Ok s' ->
  column_value w INTEGER e = Ok e' ->
  new_rowid w = Ok n ->
  save self w
  = (Ok tt,
     mkWorld (insert_row (mkRow n y' s' e') (reviews w)) (employees w)
             (<[Some n := self]> (all w))
             (alter (set_id (Some n)) self (heap w)) (coerce w) (pick_rowid w)).
Proof.
  intros Hself Hid Hy Hs He Hy' Hs' He' Hn.
  unfold save, bind, get_id at 1. rewrite Hid.
  unfold year, summary, employee_id, getattr. rewrite Hy, Hs, He.
  unfold sql_insert, store, bind. rewrite Hy', Hs', He', Hn.
  unfold setattr, get_id, all_setitem, set_all, set_reviews.
  cbn [all reviews employees heap coerce pick_rowid]. unfold deref, set_heap. cbn [heap].
  rewrite list_lookup_total_alter_eq by exact Hself. reflexivity.
Qed.

(** The same when the values are stored as they are and the largest key in
    use is below [max_rowid]: the row goes to the end of the table. *)
Lemma save_insert self y s e w :
  allocated self w ->
  truthy (id (deref self w)) = false ->
  _year (deref self w) = Some y ->
  _summary (deref self w) = Some s ->
  _employee_id (deref self w) = Some e ->
  storable w INTEGER y -> storable w TEXT s -> storable w INTEGER e ->
  next_rowid (reviews w) <= max_rowid ->
  let n := next_rowid (reviews w) in
  save self w
  = (Ok tt,
     mkWorld (reviews w ++ [mkRow n y s e]) (employees w)
             (<[Some n := self]> (all w))
             (alter (set_id (Some n)) self (heap w)) (coerce w) (pick_rowid w)).
Proof.
  intros Hself Hid Hy Hs He Hy' Hs' He' Hn n. subst n.
  rewrite (save_stored self y s e y s e (next_rowid (reviews w)) w)
    by (try done; by apply new_rowid_next).
  by rewrite insert_row_next.
Qed.

(** Whatever [save] does on an instance whose id is false, it raises and
    leaves the world as it was, or it inserts a row under a key not in use
    and enters the instance in the cache under that key. *)
Lemma save_falsy_cases self w :
  truthy (id (deref self w)) = false ->
  (exists ex, save self w = (Raise ex, w))
  \/ exists y' s' e' n,
       allocated self w
       /\ new_rowid w = Ok n
       /\ save self w
          = (Ok tt,
             mkWorld (insert_row (mkRow n y' s' e') (reviews w)) (employees w)
                     (<[Some n := self]> (all w))
                     (alter (set_id (Some n)) self (heap w)) (coerce w) (pick_rowid w)).
Proof.
  intros Hid.
  destruct (_year (deref self w)) as [y | ] eqn:Hy;
    [ | left; eexists; unfold save, bind, get_id at 1, year, getattr;
        by rewrite Hid, Hy].
  destruct (_summary (deref self w)) as [s | ] eqn:Hs;
    [ | left; eexists; unfold save, bind, get_id at 1, year, summary, getattr;
        by rewrite Hid, Hy, Hs].
  destruct (_employee_id (deref self w)) as [e | ] eqn:He;
    [ | left; eexists; unfold save, bind, get_id at 1, year, summary, employee_id, getattr;
        by rewrite Hid, Hy, Hs, He].
  assert (Hself : allocated self w).
  { unfold allocated. destruct (decide (self < length (heap w))%nat); [done | ].
    unfold deref in Hy. rewrite list_lookup_total_alt, lookup_ge_None_2 in Hy by lia.
    discriminate Hy. }
  destruct (column_value w INTEGER y) as [y' | ex] eqn:Hy';
    [ | left; exists ex; unfold save, bind, get_id at 1, year, summary, employee_id,
                           getattr, sql_insert, store, bind;
        by rewrite Hid, Hy, Hs, He, Hy'].
  destruct (column_value w TEXT s) as [s' | ex] eqn:Hs';
    [ | left; exists ex; unfold save, bind, get_id at 1, year, summary, employee_id,
                           getattr, sql_insert, store, bind;
        by rewrite Hid, Hy, Hs, He, Hy', Hs'].
  destruct (column_value w INTEGER e) as [e' | ex] eqn:He';
    [ | left; exists ex; unfold save, bind, get_id at 1, year, summary, employee_id,
                           getattr, sql_insert, store, bind;
        by rewrite Hid, Hy, Hs, He, Hy', Hs', He'].
  destruct (new_rowid w) as [n | ex] eqn:Hn;
    [ | left; exists ex; unfold save, bind, get_id at 1, year, summary, employee_id,
                           getattr, sql_insert, store, bind;
        by rewrite Hid, Hy, Hs, He, Hy', Hs', He', Hn].
  right. exists y', s', e', n. split; [exact Hself | split; [done | ]].
  by apply (save_stored self y s e).
Qed.

Lemma save_truthy self w :
  truthy (id (deref self w)) = true -> save self w = update self w.
Proof. intros Hid. unfold save, bind, get_id at 1. by rewrite Hid. Qed.




(** The key given to a new row in a table of 64-bit keys is a 64-bit key. *)
Lemma new_rowid_int64 w n : keys_int64 w -> new_rowid w = Ok n -> int64 n = true.
Proof.
  intros Hkeys. unfold new_rowid, int64.
  destruct (Z.leb_spec (next_rowid (reviews w)) max_rowid) as [Hle | _].
  - intros [= <-]. apply andb_true_iff. split; [ | by apply Z.leb_le].
    apply Z.leb_le. destruct (reviews w) as [ | r0 t] eqn:Ht; [done | ].
    pose proof (Hkeys r0) as Hr0. rewrite Ht in Hr0. specialize (Hr0 (or_introl eq_refl)).
    unfold int64 in Hr0. apply andb_true_iff in Hr0 as [Hlow _]. apply Z.leb_le in Hlow.
    simpl. pose proof (fold_max_ge (row_id r0) (List.map row_id t)). lia.
  - destruct (pick_rowid w (List.map row_id (reviews w))) as [k | ]; [ | done].
    destruct ((1 <=? k) && (k <=? 4611686018427387904)
              && negb (existsb (Z.eqb k) (List.map row_id (reviews w)))) eqn:Hk; [ | done].
    intros [= <-]. apply andb_true_iff in Hk as [Hrange _].
    apply andb_true_iff in Hrange as [Hlow Hhigh].
    apply Z.leb_le in Hlow. apply Z.leb_le in Hhigh.
    apply andb_true_iff. unfold max_rowid. split; apply Z.leb_le; lia.
Qed.

(** Materialising a valid row whose key is in the cache: the cached object
    takes the columns of the row and is returned. *)
Lemma instance_from_db_cached row l w :
  all w !! Some (row_id row) = Some l ->
  valid_row w row ->
  instance_from_db row w
  = (Ok l,
     set_heap
       (alter (set_employee_id (row_employee_id row)) l
          (alter (set_summary (row_summary row)) l
             (alter (set_year (row_year row)) l (heap w)))) w).
Proof.
  intros Hl (Hy & Hs & He). unfold instance_from_db. rewrite Hl. unfold bind.
  rewrite (year_setter_valid _ _ _ Hy). rewrite (summary_setter_valid _ _ _ Hs).
  rewrite employee_id_setter_valid by exact He. reflexivity.
Qed.

(** Materialising a valid row whose key is not in the cache: a new object is
    built from the row and entered in the cache under the key of the row. *)
Lemma instance_from_db_fresh row w :
  all w !! Some (row_id row) = None ->
  valid_row w row ->
  instance_from_db row w
  = (Ok (length (heap w)),
     mkWorld (reviews w) (employees w)
             (<[Some (row_id row) := length (heap w)]> (all w))
             (heap w ++ [mkReview (Some (row_id row)) (Some (row_year row))
                                  (Some (row_summary row))
                                  (Some (row_employee_id row))])
             (coerce w) (pick_rowid w)).
Proof.
  intros Hl (Hy & Hs & He). unfold instance_from_db. rewrite Hl. unfold bind.
  rewrite init_valid by done. unfold get_id. rewrite deref_new. reflexivity.
Qed.

Lemma sql_select_one_ok k w :
  int64 k = true ->
  sql_select_one (Some k) w = (Ok (List.find (where_id (Some k)) (reviews w)), w).
Proof. intros Hk. unfold sql_select_one, bind, bind_key. by rewrite Hk. Qed.

Lemma find_by_id_present k r w :
  int64 k = true ->
  List.find (where_id (Some k)) (reviews w) = Some r ->
  find_by_id k w
  = match instance_from_db r w with
    | (Ok review, w') => (Ok (Some review), w')
    | (Raise e, w') => (Raise e, w')
    end.
Proof.
  intros Hk Hr. unfold find_by_id. unfold bind at 1.
  rewrite (sql_select_one_ok k w Hk), Hr. reflexivity.
Qed.

Lemma find_by_id_absent k w :
  int64 k = true ->
  List.find (where_id (Some k)) (reviews w) = None -> find_by_id k w = (Ok None, w).
Proof.
  intros Hk Hr. unfold find_by_id. unfold bind at 1.
  by rewrite (sql_select_one_ok k w Hk), Hr.
Qed.

(** A key outside the signed 64-bit range cannot be looked up. *)
Lemma find_by_id_overflow k w :
  int64 k = false -> find_by_id k w = (Raise Py.OverflowError, w).
Proof. intros Hk. unfold find_by_id, bind, sql_select_one, bind_key. by rewrite Hk. Qed.

(** The three ways of [find_by_id]: the key cannot be bound; no row has the
    key; or the row with the key is materialised. *)
Lemma find_by_id_cases k w :
  find_by_id k w = (Raise Py.OverflowError, w)
  \/ find_by_id k w = (Ok None, w)
  \/ exists r,
       In r (reviews w) /\ row_id r = k
       /\ find_by_id k w
          = match instance_from_db r w with
            | (Ok review, w') => (Ok (Some review), w')
            | (Raise e, w') => (Raise e, w')
            end.
Proof.
  destruct (int64 k) eqn:Hk; [ | left; by apply find_by_id_overflow].
  right. destruct (List.find (where_id (Some k)) (reviews w)) as [r | ] eqn:Hr.
  - right. exists r. pose proof (find_some _ _ Hr) as [Hin Hid].
    simpl in Hid. apply Z.eqb_eq in Hid.
    split; [exact Hin | split; [exact Hid | by apply find_by_id_present]].
  - left. by apply find_by_id_absent.
Qed.

(** A property of worlds that every materialisation of a row of the table
    keeps is kept by [find_by_id]. *)
Lemma find_by_id_preserves (P : World -> Prop) k :
  (forall w r, P w -> In r (reviews w) ->
     match instance_from_db r w with (_, w') => P w' end) ->
  preserves P (find_by_id k).
Proof.
  intros HP w Hw.
  destruct (find_by_id_cases k w) as [-> | [-> | (r & Hin & _ & ->)]]; [done | done | ].
  specialize (HP w r Hw Hin).
  by destruct (instance_from_db r w) as [[l | ex] w'].
Qed.

(** ** Round trips *)




(** C3: after [delete] on an instance whose id is [k] (a 64-bit integer, as
    every key of the table), [find_by_id k] returns [None], the id of the
    instance is [None], and [k] is no key of [Review.all]. *)
Theorem delete_then_find_by_id (self : loc) (k : Z) (w : World) :
  allocated self w ->
  id (deref self w) = Some k ->
  int64 k = true ->
  exists w1,
    delete self w = (Ok tt, w1)
    /\ find_by_id k w1 = (Ok None, w1)
    /\ get_id self w1 = (Ok None, w1)
    /\ all w1 !! Some k = None.
Proof.
  intros Hself Hid Hk. eexists.
  split; [apply delete_world; rewrite Hid; by intros k0 [= <-] | ]. rewrite Hid.
  split; [ | split].
  - apply find_by_id_absent; [exact Hk | ]. cbn [reviews]. apply find_after_delete.
  - unfold get_id, deref. cbn [heap].
    by rewrite list_lookup_total_alter_eq.
  - cbn [all]. apply lookup_delete_eq.
Qed.

Lemma delete_then_find_by_id_witness :
  allocated 0%nat world1 /\ id (deref 0%nat world1) = Some 1
  /\ exists w1,
      delete 0%nat world1 = (Ok tt, w1)
      /\ find_by_id 1 w1 = (Ok None, w1)
      /\ get_id 0%nat w1 = (Ok None, w1)
      /\ all w1 !! Some 1 = None.
Proof.
  assert (H : allocated 0%nat world1) by (unfold allocated; simpl; lia).
  split; [exact H | split; [reflexivity | ]].
  apply (delete_then_find_by_id 0%nat 1 world1 H); reflexivity.
Defined.

Lemma others_In key (t t' : list Row) r :
  others key t' = others key t -> where_id key r = false -> In r t' <-> In r t.
Proof.
  intros Heq Hr.
  assert (Hin : forall l, In r l <-> In r (others key l)).
  { intros l. unfold others. rewrite filter_In, Hr. simpl. tauto. }
  by rewrite (Hin t'), (Hin t), Heq.
Qed.

(** C9: [update] and [delete] on an instance leave every row whose key is not
    the id of the instance as it was: the rows the statement does not address
    are the same, in the same order, before and after; in particular each
    such row is in the table afterwards exactly when it was before. *)
Theorem update_delete_frame (self : loc) (w : World) :
  let key := id (deref self w) in
  let updated := reviews (run (update self) w) in
  let deleted := reviews (run (delete self) w) in
  others key updated = others key (reviews w)
  /\ others key deleted = others key (reviews w)
  /\ forall r, where_id key r = false ->
      (In r updated <-> In r (reviews w)) /\ (In r deleted <-> In r (reviews w)).
Proof.
  intros key updated deleted.
  assert (Hu : others key updated = others key (reviews w)) by apply update_reviews.
  assert (Hd : others key deleted = others key (reviews w)).
  { subst deleted key. unfold run.
    destruct (key_ok_cases (id (deref self w))) as [Hkey | (k & Hk & Hover)].
    - rewrite delete_world by done. cbn [snd reviews]. apply others_delete.
    - by rewrite (delete_overflow self k w Hk Hover). }
  split; [exact Hu | split; [exact Hd | ]].
  intros r Hr. split; by apply (others_In key).
Qed.

(** ** Repeated lookups *)

Lemma find_key k r (t : list Row) :
  List.find (where_id (Some k)) t = Some r -> row_id r = k.
Proof. intros H. apply find_some in H as [_ H]. simpl in H. lia. Qed.

(** A lookup of a valid row returns the object the cache holds afterwards
    under the key, and changes neither the table nor the collaborator. *)
Lemma find_by_id_valid k r w :
  int64 k = true ->
  List.find (where_id (Some k)) (reviews w) = Some r ->
  valid_row w r ->
  exists review w1,
    find_by_id k w = (Ok (Some review), w1)
    /\ all w1 !! Some k = Some review
    /\ reviews w1 = reviews w
    /\ employees w1 = employees w.
Proof.
  intros Hk64 Hr Hvalid. rewrite (find_by_id_present k r w Hk64 Hr).
  pose proof (find_key _ _ _ Hr) as Hk.
  destruct (all w !! Some (row_id r)) as [l | ] eqn:Hl.
  - rewrite (instance_from_db_cached r l w Hl Hvalid).
    eexists l, _. split; [reflexivity | ]. cbn [all reviews employees set_heap].
    by rewrite <- Hk.
  - rewrite (instance_from_db_fresh r w Hl Hvalid).
    eexists _, _. split; [reflexivity | ]. cbn [all reviews employees].
    rewrite Hk. by rewrite lookup_insert_eq.
Qed.

(** A present row that one of the setters refuses is not materialised: the
    lookup raises the validation error of that setter. *)
Lemma find_by_id_invalid_row_raises k r w :
  int64 k = true ->
  List.find (where_id (Some k)) (reviews w) = Some r ->
  ~ valid_row w r ->
  validation_error (result (find_by_id k) w).
Proof.
  intros Hk64 Hr Hinvalid. unfold result. rewrite (find_by_id_present k r w Hk64 Hr).
  assert (Hraise : validation_error (fst (instance_from_db r w))).
  { unfold instance_from_db.
    destruct (all w !! Some (row_id r)) as [l | ]; unfold __init__, alloc, bind.
    - destruct (year_cases (row_year r)) as [Hy | Hy];
        [rewrite (year_setter_valid _ _ _ Hy)
        | destruct (year_setter_invalid l (row_year r) w Hy) as [msg ->]; by exists msg].
      destruct (summary_cases (row_summary r)) as [Hs | Hs];
        [rewrite (summary_setter_valid _ _ _ Hs)
        | rewrite (summary_setter_invalid _ _ _ Hs); by eexists].
      destruct (employees w (row_employee_id r)) eqn:He;
        [destruct Hinvalid; by repeat split | ].
      rewrite employee_id_setter_invalid by exact He. by eexists.
    - set (w0 := set_heap (heap w ++ [mkReview (Some (row_id r)) None None None]) w).
      destruct (year_cases (row_year r)) as [Hy | Hy];
        [rewrite (year_setter_valid _ _ _ Hy)
        | destruct (year_setter_invalid (length (heap w)) (row_year r) w0 Hy) as [msg ->];
          by exists msg].
      destruct (summary_cases (row_summary r)) as [Hs | Hs];
        [rewrite (summary_setter_valid _ _ _ Hs)
        | rewrite (summary_setter_invalid _ _ _ Hs); by eexists].
      destruct (employees w (row_employee_id r)) eqn:He;
        [destruct Hinvalid; by repeat split | ].
      rewrite employee_id_setter_invalid by exact He. by eexists. }
  destruct (instance_from_db r w) as [[l | ex] w'];
    destruct Hraise as [msg Hmsg]; [discriminate Hmsg | ].
  exists msg. simpl in *. congruence.
Qed.

(** C6 as stated fails: in [world_orphan] the row with key 1 is present, but
    its employee is gone, and [find_by_id 1] raises the validation error of
    the [employee_id] setter instead of returning an instance. *)
Lemma find_by_id_orphan_row_raises :
  row_present 1 world_orphan
  /\ result (find_by_id 1) world_orphan = Raise (Py.ValueError "Employee must exist.")
  /\ ~ identity_stable 1 world_orphan.
Proof.
  split; [discriminate | split; [reflexivity | ]].
  intros (l & w1 & w2 & Hfirst & _).
  assert (H : result (find_by_id 1) world_orphan = Ok (Some l))
    by (unfold result; by rewrite Hfirst).
  discriminate H.
Qed.

(** ** Update and re-fetch *)

Lemma map_update_keys key y s e (t : list Row) :
  List.map row_id
    (List.map (fun r => if where_id key r then mkRow (row_id r) y s e else r) t)
  = List.map row_id t.
Proof.
  induction t as [ | r t IH]; [done | ]. simpl. rewrite IH.
  by destruct (where_id key r).
Qed.







(** ** [save] and the truth value of the id *)

Lemma update_keeps_length self w :
  length (reviews (run (update self) w)) = length (reviews w).
Proof.
  unfold run. destruct (update_cases self w) as [-> | (y' & s' & e' & ->)]; [done | ].
  cbn [snd reviews set_reviews]. apply length_map.
Qed.

(** An instance whose id is an integer other than 0 is updated, and no row is
    inserted. *)
Lemma save_with_nonzero_id_updates self k w :
  id (deref self w) = Some k -> k <> 0 ->
  save self w = update self w
  /\ length (reviews (run (save self) w)) = length (reviews w).
Proof.
  intros Hid Hk.
  assert (Hsave : save self w = update self w).
  { apply save_truthy. rewrite Hid. simpl. by destruct (Z.eqb_spec k 0). }
  split; [exact Hsave | ]. unfold run. rewrite Hsave. apply update_keeps_length.
Qed.

(** An instance without id, whose values the database stores as they are, is
    inserted as a new row that carries its year, summary and employee_id (at
    the end of the table, as long as the largest key is below [max_rowid]);
    the key of the row becomes its id, and the cache holds the instance under
    that key. *)
Lemma save_without_id_inserts self y s e w :
  allocated self w ->
  id (deref self w) = None ->
  _year (deref self w) = Some y ->
  _summary (deref self w) = Some s ->
  _employee_id (deref self w) = Some e ->
  storable w INTEGER y -> storable w TEXT s -> storable w INTEGER e ->
  next_rowid (reviews w) <= max_rowid ->
  exists n w',
    save self w = (Ok tt, w')
    /\ reviews w' = reviews w ++ [mkRow n y s e]
    /\ get_id self w' = (Ok (Some n), w')
    /\ all w' !! Some n = Some self.
Proof.
  intros Hself Hid Hy Hs He Hy' Hs' He' Hn. eexists _, _.
  split; [apply (save_insert self y s e); try done; by rewrite Hid | ].
  cbn [reviews all]. split; [reflexivity | split].
  - unfold get_id, deref. cbn [heap]. by rewrite list_lookup_total_alter_eq.
  - apply lookup_insert_eq.
Qed.

Lemma length_insert_row r (t : list Row) : length (insert_row r t) = S (length t).
Proof.
  induction t as [ | r0 t IH]; [done | ]. simpl.
  destruct (row_id r <? row_id r0); simpl; [done | by rewrite IH].
Qed.

(** C2 on an instance whose id is 0, when the [INSERT] succeeds (the database
    binds the year, summary and employee_id of the instance, which it stores
    as [y'], [s'] and [e'], and gives the key [n] to the new row): the
    instance has an id, yet [save] does not delegate to [update]; it inserts a
    new row that carries the values and gives the instance the key of that
    row.  As long as the largest key in use is below [max_rowid], that key is
    one more than the largest key and the row goes to the end of the table. *)
Theorem save_with_id_zero_inserts (self : loc) (y s e y' s' e' : val) (n : Z) (w : World) :
  allocated self w ->
  id (deref self w) = Some 0 ->
  _year (deref self w) = Some y ->
  _summary (deref self w) = Some s ->
  _employee_id (deref self w) = Some e ->
  column_value w INTEGER y = Ok y' ->
  column_value w TEXT s = Ok s' ->
  column_value w INTEGER e = Ok e' ->
  new_rowid w = Ok n ->
  reviews (run (save self) w) = insert_row (mkRow n y' s' e') (reviews w)
  /\ (next_rowid (reviews w) <= max_rowid ->
      n = next_rowid (reviews w)
      /\ reviews (run (save self) w) = reviews w ++ [mkRow n y' s' e'])
  /\ get_id self (run (save self) w) = (Ok (Some n), run (save self) w)
  /\ length (reviews (run (update self) w)) = length (reviews w)
  /\ save self w <> update self w.
Proof.
  intros Hself Hid Hy Hs He Hy' Hs' He' Hn.
  assert (Hsave := save_stored self y s e y' s' e' n w Hself).
  rewrite Hid in Hsave. specialize (Hsave eq_refl Hy Hs He Hy' Hs' He' Hn).
  assert (Hrows : reviews (run (save self) w) = insert_row (mkRow n y' s' e') (reviews w))
    by (unfold run; by rewrite Hsave).
  split; [exact Hrows | split; [ | split; [ | split]]].
  - intros Hmax. rewrite (new_rowid_next w Hmax) in Hn. injection Hn as <-.
    split; [reflexivity | ]. rewrite Hrows. apply insert_row_next.
  - unfold run. rewrite Hsave. cbn [snd]. unfold get_id, deref. cbn [heap].
    by rewrite list_lookup_total_alter_eq.
  - apply update_keeps_length.
  - intros Heq. pose proof (update_keeps_length self w) as Hlen.
    unfold run in Hlen, Hrows. rewrite <- Heq, Hrows, length_insert_row in Hlen. lia.
Qed.

Lemma save_with_id_zero_inserts_witness :
  get_id 0%nat world_id0 = (Ok (Some 0), world_id0)
  /\ reviews world_id0 = []
  /\ reviews (run (save 0%nat) world_id0)
     = [mkRow 1 (Py.Int 2023) (Py.Str (Py.lit "Good work")) (Py.Int 5)]
  /\ get_id 0%nat (run (save 0%nat) world_id0) = (Ok (Some 1), run (save 0%nat) world_id0)
  /\ save 0%nat world_id0 <> update 0%nat world_id0.
Proof.
  split; [reflexivity | split; [reflexivity | ]].
  assert (H : allocated 0%nat world_id0) by (unfold allocated; simpl; lia).
  destruct (save_with_id_zero_inserts 0%nat (Py.Int 2023) (Py.Str (Py.lit "Good work"))
              (Py.Int 5) (Py.Int 2023) (Py.Str (Py.lit "Good work")) (Py.Int 5) 1
              world_id0 H eq_refl eq_refl eq_refl eq_refl eq_refl eq_refl eq_refl eq_refl)
    as (Hrows & _ & Hid & _ & Hne).
  split; [exact Hrows | split; [exact Hid | exact Hne]].
Defined.

(** ** The keys of the cache *)

(** C8 on a row with key 0: after [find_by_id 0] has materialised the row,
    the cache agrees with the ids; [save] on the returned instance succeeds,
    and afterwards the cache still holds the instance under 0 while its id
    is 1. *)
Theorem save_breaks_cache_key_agreement :
  cache_keys_agree world_row0
  /\ result (find_by_id 0) table0 = Ok (Some 0%nat)
  /\ all world_row0 !! Some 0 = Some 0%nat
  /\ result (save 0%nat) world_row0 = Ok tt
  /\ all (run (save 0%nat) world_row0) !! Some 0 = Some 0%nat
  /\ id (deref 0%nat (run (save 0%nat) world_row0)) = Some 1
  /\ ~ cache_keys_agree (run (save 0%nat) world_row0).
Proof.
  split; [ | do 4 (split; [reflexivity | ]); split].
  - intros k l Hl.
    change (all world_row0) with (<[Some 0 := 0%nat]> (∅ : gmap (option Z) loc)) in Hl.
    apply lookup_insert_Some in Hl as [[<- <-] | [_ Hl]]; [reflexivity | ].
    by rewrite lookup_empty in Hl.
  - reflexivity.
  - intros Hagree. specialize (Hagree (Some 0) 0%nat eq_refl). discriminate Hagree.
Qed.

(** *** Where the keys of the cache do agree with the ids

    The invariant [cache_ok] holds in a world with an empty cache and is kept
    by every method, [save] on an instance whose id is 0 apart. *)

Lemma ensures_bind {A B} P (m : M A) Q (k : A -> M B) R E :
  ensures P m Q E -> (forall a, ensures (Q a) (k a) R E) -> ensures P (bind m k) R E.
Proof.
  intros Hm Hk w Hw. unfold bind. specialize (Hm w Hw).
  destruct (m w) as [[a | ex] w']; [by apply Hk | exact Hm].
Qed.

Lemma ensures_ret {A} (P : World -> Prop) (a : A) (Q : A -> World -> Prop) E :
  (forall w, P w -> Q a w) -> ensures P (ret a) Q E.
Proof. intros H w Hw. by apply H. Qed.

Lemma ensures_weaken {A} (P P' : World -> Prop) (m : M A) (Q Q' : A -> World -> Prop)
    (E E' : World -> Prop) :
  ensures P m Q E ->
  (forall w, P' w -> P w) -> (forall a w, Q a w -> Q' a w) -> (forall w, E w -> E' w) ->
  ensures P' m Q' E'.
Proof.
  intros Hm HP HQ HE w Hw. specialize (Hm w (HP w Hw)).
  destruct (m w) as [[a | ex] w']; [by apply HQ | by apply HE].
Qed.

Lemma cache_ok_empty t emp h co pk : cache_ok (mkWorld t emp ∅ h co pk).
Proof. intros k l Hl. cbn [all] in Hl. by rewrite lookup_empty in Hl. Qed.

Lemma cache_ok_keys_agree w : cache_ok w -> cache_keys_agree w /\ cache_allocated w.
Proof.
  intros Hok. split; intros k l Hl; destruct (Hok k l Hl) as (z & r & -> & Hr & Hid).
  - unfold deref. by rewrite (list_lookup_total_correct _ _ _ Hr).
  - unfold allocated. by apply lookup_lt_Some in Hr.
Qed.

Lemma cache_ok_id_stable : id_stable cache_ok.
Proof.
  intros f self w Hf Hok k l Hl. simpl in Hl.
  destruct (Hok k l Hl) as (z & r & -> & Hr & Hid). simpl.
  destruct (decide (self = l)) as [-> | Hne].
  - exists z, (f r). rewrite list_lookup_alter_eq, Hr. by rewrite Hf.
  - exists z, r. by rewrite list_lookup_alter_ne.
Qed.

Lemma obj_id_stable l i : id_stable (obj_id l i).
Proof.
  intros f self w Hf (r & Hr & Hid). unfold obj_id. simpl.
  destruct (decide (self = l)) as [-> | Hne].
  - exists (f r). rewrite list_lookup_alter_eq, Hr. by rewrite Hf.
  - exists r. by rewrite list_lookup_alter_ne.
Qed.

Lemma and_id_stable (P Q : World -> Prop) :
  id_stable P -> id_stable Q -> id_stable (fun w => P w /\ Q w).
Proof. intros HP HQ f self w Hf [Hp Hq]. split; [by apply HP | by apply HQ]. Qed.

Lemma year_setter_preserves P self v : id_stable P -> preserves P (year_setter self v).
Proof.
  intros HP w Hw. unfold year_setter.
  destruct v as [ | b | n | s | t]; try exact Hw.
  destruct (n <? 2000); [exact Hw | ]. by apply HP.
Qed.

Lemma summary_setter_preserves P self v : id_stable P -> preserves P (summary_setter self v).
Proof.
  intros HP w Hw. unfold summary_setter.
  destruct v as [ | b | n | s | t]; try exact Hw.
  destruct (length (Py.strip s) =? 0)%nat; [exact Hw | ]. by apply HP.
Qed.

Lemma employee_id_setter_preserves P self v :
  id_stable P -> preserves P (employee_id_setter self v).
Proof.
  intros HP w Hw. unfold employee_id_setter.
  destruct (employees w v); [ | exact Hw]. by apply HP.
Qed.

Lemma preserves_run {A} P (m : M A) w : preserves P m -> P w -> P (run m w).
Proof.
  intros Hm Hw. specialize (Hm w Hw). unfold run.
  by destruct (m w) as [[a | ex] w'].
Qed.

(** The constructor keeps every property that neither an assignment to an
    attribute nor a new object can break. *)
Lemma init_preserves P y s e i :
  id_stable P ->
  (forall w, P w -> P (set_heap (heap w ++ [mkReview i None None None]) w)) ->
  preserves P (__init__ y s e i).
Proof.
  intros Hstable Halloc. unfold __init__.
  apply (ensures_bind _ _ (fun _ => P)); [intros w Hw; by apply Halloc | ].
  intros l.
  apply (ensures_bind _ _ _ _ _ _ (year_setter_preserves _ l y Hstable)). intros _.
  apply (ensures_bind _ _ _ _ _ _ (summary_setter_preserves _ l s Hstable)). intros _.
  apply (ensures_bind _ _ _ _ _ _ (employee_id_setter_preserves _ l e Hstable)). intros _.
  by apply ensures_ret.
Qed.

(** The constructor keeps the invariant, and the object it returns has the id
    it was given. *)
Lemma init_ensures y s e i :
  ensures cache_ok (__init__ y s e i) (fun l w => cache_ok w /\ obj_id l i w) cache_ok.
Proof.
  assert (Hstable : forall l, id_stable (fun w => cache_ok w /\ obj_id l i w))
    by (intros l; apply and_id_stable; [apply cache_ok_id_stable | apply obj_id_stable]).
  unfold __init__.
  apply (ensures_bind _ _ (fun l w => cache_ok w /\ obj_id l i w)).
  - intros w Hok. unfold alloc. split.
    + intros k l Hl. simpl in Hl.
      destruct (Hok k l Hl) as (z & r & -> & Hr & Hid).
      exists z, r. simpl.
      split; [done | split; [by apply lookup_app_l_Some | done]].
    + exists (mkReview i None None None). simpl. split; [ | reflexivity].
      by rewrite lookup_app_r, Nat.sub_diag.
  - intros l.
    assert (Hw : forall (m : M unit),
               preserves (fun w => cache_ok w /\ obj_id l i w) m ->
               ensures (fun w => cache_ok w /\ obj_id l i w) m
                 (fun _ w => cache_ok w /\ obj_id l i w) cache_ok).
    { intros m Hm. apply (ensures_weaken _ _ _ _ _ _ _ Hm); tauto. }
    apply (ensures_bind _ _ _ _ _ _ (Hw _ (year_setter_preserves _ l y (Hstable l)))).
    intros _.
    apply (ensures_bind _ _ _ _ _ _ (Hw _ (summary_setter_preserves _ l s (Hstable l)))).
    intros _.
    apply (ensures_bind _ _ _ _ _ _ (Hw _ (employee_id_setter_preserves _ l e (Hstable l)))).
    intros _. by apply ensures_ret.
Qed.

Lemma cache_ok_register z l w :
  cache_ok w -> obj_id l (Some z) w -> cache_ok (set_all (<[Some z := l]> (all w)) w).
Proof.
  intros Hok (r & Hr & Hid) k l' Hl. simpl in Hl. simpl.
  apply lookup_insert_Some in Hl as [[<- <-] | [_ Hl]]; [by exists z, r | by apply Hok].
Qed.

Lemma instance_from_db_cache_ok row : preserves cache_ok (instance_from_db row).
Proof.
  intros w Hok. unfold instance_from_db.
  destruct (all w !! Some (row_id row)) as [l | ] eqn:Hl.
  - clear Hl. revert w Hok.
    change (preserves cache_ok
              (year_setter l (row_year row) ;;
               summary_setter l (row_summary row) ;;
               employee_id_setter l (row_employee_id row) ;; ret l)).
    apply (ensures_bind _ _ _ _ _ _ (year_setter_preserves _ l _ cache_ok_id_stable)).
    intros _.
    apply (ensures_bind _ _ _ _ _ _ (summary_setter_preserves _ l _ cache_ok_id_stable)).
    intros _.
    apply (ensures_bind _ _ _ _ _ _ (employee_id_setter_preserves _ l _ cache_ok_id_stable)).
    intros _. by apply ensures_ret.
  - clear Hl. revert w Hok.
    change (preserves cache_ok
              (review <- __init__ (row_year row) (row_summary row) (row_employee_id row)
                                  (Some (row_id row)) ;;
               i <- get_id review ;; all_setitem i review ;; ret review)).
    apply (ensures_bind _ _ _ _ _ _ (init_ensures _ _ _ _)).
    intros l w [Hok Hobj]. unfold bind, get_id, all_setitem, ret.
    destruct Hobj as (r & Hr & Hid). unfold deref. rewrite (list_lookup_total_correct _ _ _ Hr), Hid.
    apply cache_ok_register; [exact Hok | by exists r].
Qed.

Lemma cache_ok_set_reviews t w : cache_ok w -> cache_ok (set_reviews t w).
Proof. intros Hok k l Hl. by apply Hok. Qed.

(** A property kept by [update]: kept when the world stays, and kept when
    the addressed rows are rewritten. *)
Lemma update_preserves (P : World -> Prop) self :
  (forall w y' s' e', P w ->
     P (set_reviews
          (List.map (fun r => if where_id (id (deref self w)) r
                              then mkRow (row_id r) y' s' e' else r) (reviews w)) w)) ->
  preserves P (update self).
Proof.
  intros HP w Hw. destruct (update_cases self w) as [Heq | (y' & s' & e' & ->)].
  - rewrite Heq. by destruct (fst (update self w)).
  - by apply HP.
Qed.

Lemma update_cache_ok self : preserves cache_ok (update self).
Proof. apply update_preserves. intros w y' s' e'. apply cache_ok_set_reviews. Qed.

Lemma delete_cache_ok self : preserves cache_ok (delete self).
Proof.
  intros w Hok.
  destruct (key_ok_cases (id (deref self w))) as [Hkey | (k0 & Hk0 & Hover)];
    [ | by rewrite (delete_overflow self k0 w Hk0 Hover)].
  rewrite delete_world by done. intros k l Hl. simpl in Hl. simpl.
  apply lookup_delete_Some in Hl as [Hk Hl].
  destruct (Hok k l Hl) as (z & r & -> & Hr & Hid).
  exists z, r. split; [done | split; [ | done]].
  rewrite list_lookup_alter_ne; [done | ]. intros ->.
  apply Hk. unfold deref. by rewrite (list_lookup_total_correct _ _ _ Hr).
Qed.

(** An object whose attribute is bound is an object of the heap. *)
Lemma bound_allocated self w y : _year (deref self w) = Some y -> allocated self w.
Proof.
  intros Hy. unfold allocated. destruct (decide (self < length (heap w))%nat); [done | ].
  unfold deref in Hy. rewrite list_lookup_total_alt, lookup_ge_None_2 in Hy by lia.
  discriminate Hy.
Qed.

(** [save] keeps the invariant on every instance whose id is not 0. *)
Lemma save_cache_ok self :
  ensures (fun w => cache_ok w /\ id (deref self w) <> Some 0) (save self)
          (fun _ => cache_ok) cache_ok.
Proof.
  intros w [Hok Hid].
  destruct (truthy (id (deref self w))) eqn:Htruthy.
  - rewrite save_truthy by done. by apply update_cache_ok.
  - assert (Hnone : id (deref self w) = None).
    { destruct (id (deref self w)) as [z | ]; [ | done]. simpl in Htruthy.
      destruct (Z.eqb_spec z 0) as [-> | ]; [done | discriminate Htruthy]. }
    destruct (save_falsy_cases self w Htruthy)
      as [[ex ->] | (y' & s' & e' & n & Hself & Hn & ->)]; [exact Hok | ].
    intros k l Hl. simpl in Hl. simpl.
    apply lookup_insert_Some in Hl as [[<- <-] | [_ Hl]].
    + exists n, (set_id (Some n) (deref self w)).
      split; [done | split; [ | done]].
      rewrite list_lookup_alter_eq. unfold deref.
      by rewrite (list_lookup_lookup_total_lt _ _ Hself).
    + destruct (Hok k l Hl) as (z & r & -> & Hr & Hidr).
      exists z, r. split; [done | split; [ | done]].
      rewrite list_lookup_alter_ne; [done | ]. intros ->.
      unfold deref in Hnone. rewrite (list_lookup_total_correct _ _ _ Hr) in Hnone.
      congruence.
Qed.

Lemma create_cache_ok y s e : preserves cache_ok (create y s e).
Proof.
  unfold create. apply (ensures_bind _ _ _ _ _ _ (init_ensures y s e None)).
  intros l. apply (ensures_bind _ _ (fun _ => cache_ok)); [ | intros _; by apply ensures_ret].
  apply (ensures_weaken _ _ _ _ _ _ _ (save_cache_ok l)); try done.
  intros w [Hok (r & Hr & Hid)]. split; [done | ].
  unfold deref. rewrite (list_lookup_total_correct _ _ _ Hr). congruence.
Qed.

Lemma for_each_preserves {A B} P (f : A -> M B) (l : list A) :
  (forall a, preserves P (f a)) -> preserves P (for_each f l).
Proof.
  intros Hf. induction l as [ | a l IH]; [by apply ensures_ret | ]. simpl.
  apply (ensures_bind _ _ _ _ _ _ (Hf a)). intros b.
  apply (ensures_bind _ _ _ _ _ _ IH). intros bs. by apply ensures_ret.
Qed.

Lemma get_all_cache_ok : preserves cache_ok get_all.
Proof.
  intros w Hok. unfold get_all, bind, sql_select_all.
  by apply (for_each_preserves cache_ok instance_from_db (reviews w)
              instance_from_db_cache_ok).
Qed.

Lemma find_by_id_cache_ok k : preserves cache_ok (find_by_id k).
Proof.
  apply find_by_id_preserves. intros w r Hok _.
  pose proof (instance_from_db_cache_ok r w Hok) as H.
  by destruct (instance_from_db r w) as [[l | ex] w'].
Qed.

(** ** The same instance at every lookup *)

Lemma row_present_keys k w : row_present k w <-> In k (List.map row_id (reviews w)).
Proof.
  unfold row_present. induction (reviews w) as [ | r t IH]; simpl; [tauto | ].
  destruct (Z.eqb_spec (row_id r) k) as [Hk | Hk]; [split; [by left | done] | ].
  rewrite IH. split; [by right | by intros [? | ?]].
Qed.

Lemma cached_row_id_stable k l : id_stable (cached_row k l).
Proof. by intros f self w _ H. Qed.

(** The constructor keeps a property of that kind, and the object it returns
    has the id it was given. *)
Lemma init_obj_id P y s e i :
  id_stable P ->
  (forall w, P w -> P (set_heap (heap w ++ [mkReview i None None None]) w)) ->
  ensures P (__init__ y s e i) (fun l w => P w /\ obj_id l i w) P.
Proof.
  intros HP Halloc.
  assert (Hstable : forall l, id_stable (fun w => P w /\ obj_id l i w))
    by (intros l; apply and_id_stable; [exact HP | apply obj_id_stable]).
  unfold __init__.
  apply (ensures_bind _ _ (fun l w => P w /\ obj_id l i w)).
  - intros w Hw. unfold alloc. split; [by apply Halloc | ].
    exists (mkReview i None None None). simpl. split; [ | reflexivity].
    by rewrite lookup_app_r, Nat.sub_diag.
  - intros l.
    assert (Hw : forall (m : M unit),
               preserves (fun w => P w /\ obj_id l i w) m ->
               ensures (fun w => P w /\ obj_id l i w) m
                 (fun _ w => P w /\ obj_id l i w) P).
    { intros m Hm. apply (ensures_weaken _ _ _ _ _ _ _ Hm); tauto. }
    apply (ensures_bind _ _ _ _ _ _ (Hw _ (year_setter_preserves _ l y (Hstable l)))).
    intros _.
    apply (ensures_bind _ _ _ _ _ _ (Hw _ (summary_setter_preserves _ l s (Hstable l)))).
    intros _.
    apply (ensures_bind _ _ _ _ _ _ (Hw _ (employee_id_setter_preserves _ l e (Hstable l)))).
    intros _. by apply ensures_ret.
Qed.

Lemma instance_from_db_cached_row k l row : preserves (cached_row k l) (instance_from_db row).
Proof.
  intros w Hw. unfold instance_from_db.
  destruct (all w !! Some (row_id row)) as [l0 | ] eqn:Hl.
  - clear Hl. revert w Hw.
    change (preserves (cached_row k l)
              (year_setter l0 (row_year row) ;;
               summary_setter l0 (row_summary row) ;;
               employee_id_setter l0 (row_employee_id row) ;; ret l0)).
    apply (ensures_bind _ _ _ _ _ _
             (year_setter_preserves _ l0 _ (cached_row_id_stable k l))). intros _.
    apply (ensures_bind _ _ _ _ _ _
             (summary_setter_preserves _ l0 _ (cached_row_id_stable k l))). intros _.
    apply (ensures_bind _ _ _ _ _ _
             (employee_id_setter_preserves _ l0 _ (cached_row_id_stable k l))). intros _.
    by apply ensures_ret.
  - assert (Hne : row_id row <> k) by (intros Heq; rewrite Heq in Hl; destruct Hw; congruence).
    clear Hl. revert w Hw.
    change (preserves (cached_row k l)
              (review <- __init__ (row_year row) (row_summary row) (row_employee_id row)
                                  (Some (row_id row)) ;;
               i <- get_id review ;; all_setitem i review ;; ret review)).
    apply (ensures_bind _ _ _ _ _ _
             (init_obj_id _ _ _ _ _ (cached_row_id_stable k l) (fun w H => H))).
    intros l1 w [[Hcache Hrow] (r & Hr & Hid)]. unfold bind, get_id, all_setitem, ret.
    unfold deref. rewrite (list_lookup_total_correct _ _ _ Hr), Hid.
    split; [ | exact Hrow]. cbn [all set_all].
    rewrite lookup_insert_ne; [exact Hcache | congruence].
Qed.

Lemma update_cached_row k l self : preserves (cached_row k l) (update self).
Proof.
  apply update_preserves. intros w y' s' e' [Hcache Hrow].
  split; [exact Hcache | ].
  apply row_present_keys. cbn [reviews set_reviews]. rewrite map_update_keys.
  by apply row_present_keys.
Qed.

(** The key [save] gives to a new row is not in use, so the entry of a
    present row stays. *)
Lemma save_cached_row k l self : preserves (cached_row k l) (save self).
Proof.
  intros w Hw.
  destruct (truthy (id (deref self w))) eqn:Htruthy.
  - rewrite save_truthy by done. by apply update_cached_row.
  - destruct (save_falsy_cases self w Htruthy)
      as [[ex ->] | (y' & s' & e' & n & Hself & Hn & ->)]; [exact Hw | ].
    destruct Hw as [Hcache Hrow].
    destruct (new_rowid_fresh w n Hn) as [Hfresh _].
    assert (Hne : n <> k) by (intros ->; by apply Hrow).
    split; cbn [all].
    + rewrite lookup_insert_ne; [exact Hcache | congruence].
    + apply row_present_keys. cbn [reviews]. apply in_map_iff.
      apply row_present_keys, in_map_iff in Hrow as (r & Hk & Hr).
      exists r. split; [exact Hk | ]. apply in_insert_row. by right.
Qed.

Lemma create_cached_row k l y s e : preserves (cached_row k l) (create y s e).
Proof.
  unfold create. apply (ensures_bind _ _ (fun _ => cached_row k l)).
  - apply init_preserves; [apply cached_row_id_stable | by intros w H].
  - intros self. apply (ensures_bind _ _ _ _ _ _ (save_cached_row k l self)).
    intros _. by apply ensures_ret.
Qed.

Lemma find_by_id_cached_row k l k0 : preserves (cached_row k l) (find_by_id k0).
Proof.
  apply find_by_id_preserves. intros w r Hw _.
  pose proof (instance_from_db_cached_row k l r w Hw) as H.
  by destruct (instance_from_db r w) as [[l0 | ex] w'].
Qed.

Lemma get_all_cached_row k l : preserves (cached_row k l) get_all.
Proof.
  intros w Hw. unfold get_all, bind, sql_select_all.
  by apply (for_each_preserves (cached_row k l) instance_from_db (reviews w)
              (instance_from_db_cached_row k l)).
Qed.

(** No step other than [delete] removes a row or an entry of the cache. *)
Lemma step_cached_row k l o w : cached_row k l w -> cached_row k l (step o w).
Proof.
  intros Hw. destruct o; cbn [step]; try done.
  - apply preserves_run; [ | exact Hw].
    apply init_preserves; [apply cached_row_id_stable | by intros w' H].
  - by apply preserves_run; [apply year_setter_preserves, cached_row_id_stable | ].
  - by apply preserves_run; [apply summary_setter_preserves, cached_row_id_stable | ].
  - by apply preserves_run; [apply employee_id_setter_preserves, cached_row_id_stable | ].
  - by apply preserves_run; [apply save_cached_row | ].
  - by apply preserves_run; [apply create_cached_row | ].
  - by apply preserves_run; [apply update_cached_row | ].
  - by apply preserves_run; [apply find_by_id_cached_row | ].
  - by apply preserves_run; [apply get_all_cached_row | ].
  - by apply preserves_run; [apply instance_from_db_cached_row | ].
Qed.

Lemma exec_cached_row k l ops : forall w, cached_row k l w -> cached_row k l (exec ops w).
Proof.
  induction ops as [ | o ops IH]; intros w Hw; [exact Hw | ].
  apply IH. by apply step_cached_row.
Qed.

(** C6 as amended: for every id [k] (a 64-bit integer) whose row is present,
    [find_by_id k] raises the validation error of a setter when a column of
    the row does not pass its setter (as when the employee of the row is
    gone); otherwise it returns an instance, and after any steps of the
    client that do not call [delete] (constructions, assignments to
    attributes, [save], [create], [update], [find_by_id], [get_all],
    [instance_from_db], changes of the Employee table; each may return or
    raise), the row is still present and a further [find_by_id k] returns
    the very same object when the row, as it then is, passes the setters,
    and raises the validation error otherwise. *)
Theorem find_by_id_same_instance (k : Z) (r : Row) (w : World) :
  int64 k = true ->
  List.find (where_id (Some k)) (reviews w) = Some r ->
  (~ valid_row w r -> validation_error (result (find_by_id k) w))
  /\ (valid_row w r ->
      exists review w1,
        find_by_id k w = (Ok (Some review), w1)
        /\ forall ops : list op,
            exists r2,
              List.find (where_id (Some k)) (reviews (exec ops w1)) = Some r2
              /\ (valid_row (exec ops w1) r2 ->
                  exists w3, find_by_id k (exec ops w1) = (Ok (Some review), w3))
              /\ (~ valid_row (exec ops w1) r2 ->
                  validation_error (result (find_by_id k) (exec ops w1)))).
Proof.
  intros Hk Hr. split; [by apply find_by_id_invalid_row_raises | ].
  intros Hvalid.
  destruct (find_by_id_valid k r w Hk Hr Hvalid) as (review & w1 & Hfind & Hcache & Ht & _).
  exists review, w1. split; [exact Hfind | ]. intros ops.
  assert (Hw1 : cached_row k review w1).
  { split; [exact Hcache | ]. unfold row_present. by rewrite Ht, Hr. }
  destruct (exec_cached_row k review ops w1 Hw1) as [Hcache2 Hrow2].
  unfold row_present in Hrow2.
  destruct (List.find (where_id (Some k)) (reviews (exec ops w1))) as [r2 | ] eqn:Hr2;
    [ | done].
  exists r2. split; [reflexivity | split].
  - intros Hvalid2. rewrite (find_by_id_present k r2 _ Hk Hr2).
    pose proof (find_key _ _ _ Hr2) as Hkey.
    rewrite (instance_from_db_cached r2 review) by (by rewrite ?Hkey).
    by eexists.
  - by apply find_by_id_invalid_row_raises.
Qed.

Lemma find_by_id_same_instance_witness :
  exists review w1,
    find_by_id 1 world1 = (Ok (Some review), w1)
    /\ forall ops : list op,
        exists r2,
          List.find (where_id (Some 1)) (reviews (exec ops w1)) = Some r2
          /\ (valid_row (exec ops w1) r2 ->
              exists w3, find_by_id 1 (exec ops w1) = (Ok (Some review), w3))
          /\ (~ valid_row (exec ops w1) r2 ->
              validation_error (result (find_by_id 1) (exec ops w1))).
Proof.
  destruct (find_by_id_same_instance 1
              (mkRow 1 (Py.Int 2023) (Py.Str (Py.lit "Good work")) (Py.Int 5)) world1
              eq_refl eq_refl) as [_ H].
  apply H. split; [ | split].
  - exists 2023. split; [reflexivity | lia].
  - exists (Py.lit "Good work"). split; [reflexivity | discriminate].
  - reflexivity.
Defined.

(* ================================================================== *)
(** * Further properties of the methods *)

(** ** The [summary] setter *)

Lemma lstrip_keeps_visible c (s : Py.str) :
  In c s -> Py.isspace c = false -> In c (Py.lstrip s).
Proof.
  induction s as [ | a s IH]; [done | ]. simpl. intros Hin Hc.
  destruct (Py.isspace a) eqn:Ha; [ | exact Hin].
  destruct Hin as [-> | Hin]; [congruence | by apply IH].
Qed.

Lemma lstrip_all_space (s : Py.str) :
  (forall c, In c s -> Py.isspace c = true) -> Py.lstrip s = [].
Proof.
  induction s as [ | a s IH]; [done | ]. simpl. intros Hall.
  rewrite (Hall a) by by left. apply IH. intros c Hc. apply Hall. by right.
Qed.

Lemma visible_cases (s : Py.str) : visible s \/ forall c, In c s -> Py.isspace c = true.
Proof.
  induction s as [ | a s [(c & Hin & Hc) | Hall]].
  - right. intros c [].
  - left. exists c. split; [by right | done].
  - destruct (Py.isspace a) eqn:Ha.
    + right. intros c [<- | Hin]; [done | by apply Hall].
    + left. exists a. split; [by left | done].
Qed.

(** What [strip] leaves is empty exactly when every character is a space. *)
Lemma strip_nonempty (s : Py.str) : Py.strip s <> [] <-> visible s.
Proof.
  split.
  - intros Hne. destruct (visible_cases s) as [Hv | Hall]; [done | ].
    destruct Hne. unfold Py.strip, Py.rstrip. by rewrite (lstrip_all_space s Hall).
  - intros (c & Hin & Hc) Hnil.
    assert (H : In c (Py.strip s)).
    { unfold Py.strip, Py.rstrip. apply in_rev. rewrite rev_involutive.
      apply lstrip_keeps_visible; [ | done]. apply -> in_rev.
      by apply lstrip_keeps_visible. }
    rewrite Hnil in H. destruct H.
Qed.

(** X1: assigning [summary = v] succeeds, leaving the attribute equal to [v],
    exactly when [v] is a string with a character that is not white space;
    otherwise it raises the one validation error of the setter and leaves the
    world as it was. *)
Theorem summary_assignment (self : loc) (v : val) (w : World) :
  allocated self w ->
  let r := result (summary_setter self v) w in
  let w' := run (summary_setter self v) w in
  (r = Ok tt <-> exists s, v = Py.Str s /\ visible s)
  /\ (r = Ok tt -> summary self w' = (Ok v, w'))
  /\ (r <> Ok tt ->
      r = Raise (Py.ValueError "Summary must be a non-empty string.") /\ w' = w).
Proof.
  intros Hself r w'. subst r w'. unfold result, run.
  destruct (summary_cases v) as [Hv | Hv].
  - rewrite (summary_setter_valid _ _ _ Hv). cbn [fst snd].
    split; [split; [intros _ | done] | split; [intros _ | done]].
    + destruct Hv as (s & -> & Hs). exists s. split; [done | by apply strip_nonempty].
    + unfold summary, getattr. by rewrite deref_set_heap_alter_eq.
  - rewrite (summary_setter_invalid _ _ _ Hv). cbn [fst snd].
    split; [split; [done | ] | split; [done | done]].
    intros (s & -> & Hs). destruct Hv. exists s. split; [done | by apply strip_nonempty].
Qed.

Lemma summary_assignment_witness :
  allocated 0%nat world1
  /\ (result (summary_setter 0%nat (Py.Str (Py.lit "  ok "))) world1 = Ok tt
       <-> exists s, Py.Str (Py.lit "  ok ") = Py.Str s /\ visible s).
Proof.
  assert (H : allocated 0%nat world1) by (unfold allocated; simpl; lia).
  split; [exact H | ].
  apply (summary_assignment 0%nat (Py.Str (Py.lit "  ok ")) world1 H).
Defined.

(** ** The constructor and [create] *)

Lemma init_keeps_table_and_cache y s e i w :
  same_table w (run (__init__ y s e i) w) /\ all (run (__init__ y s e i) w) = all w.
Proof.
  apply (preserves_run (fun w' => same_table w w' /\ all w' = all w));
    [ | by repeat split].
  apply init_preserves.
  - by intros f self w' _ H.
  - by intros w' H.
Qed.

Lemma year_setter_not_int self v w :
  (forall n, v <> Py.Int n) ->
  year_setter self v w = (Raise (Py.ValueError "Year must be an integer."), w).
Proof. intros Hv. destruct v as [ | b | n | s | t]; try reflexivity. by destruct (Hv n). Qed.

Lemma year_setter_below self n w :
  n < 2000 ->
  year_setter self (Py.Int n) w = (Raise (Py.ValueError "Year must be 2000 or later."), w).
Proof. intros Hn. unfold year_setter. destruct (Z.ltb_spec n 2000); [done | lia]. Qed.

Lemma init_invalid_summary y s e i w :
  valid_year y -> ~ valid_summary s ->
  result (__init__ y s e i) w
  = Raise (Py.ValueError "Summary must be a non-empty string.").
Proof.
  intros Hy Hs. unfold result, __init__, bind, alloc.
  rewrite (year_setter_valid _ _ _ Hy). by rewrite (summary_setter_invalid _ _ _ Hs).
Qed.

Lemma init_invalid_employee y s e i w :
  valid_year y -> valid_summary s -> employees w e = false ->
  result (__init__ y s e i) w = Raise (Py.ValueError "Employee must exist.").
Proof.
  intros Hy Hs He. unfold result, __init__, bind, alloc.
  rewrite (year_setter_valid _ _ _ Hy). rewrite (summary_setter_valid _ _ _ Hs).
  by rewrite employee_id_setter_invalid.
Qed.

Lemma init_invalid y s e i w :
  ~ valid_args w y s e -> validation_error (result (__init__ y s e i) w).
Proof.
  intros Hargs.
  destruct (year_cases y) as [Hy | Hy]; [ | by apply init_invalid_year].
  destruct (summary_cases s) as [Hs | Hs];
    [ | rewrite (init_invalid_summary _ _ _ _ _ Hy Hs); by eexists].
  destruct (employees w e) eqn:He; [by destruct Hargs | ].
  rewrite (init_invalid_employee _ _ _ _ _ Hy Hs He). by eexists.
Qed.

(** X2: the constructor validates the year first, then the summary, then the
    employee id, and raises the error of the first argument that fails; it
    returns a new object exactly when all three pass.  In every case the table
    and the cache are as before. *)
Theorem init_validation_order (y s e : val) (i : option Z) (w : World) :
  let r := result (__init__ y s e i) w in
  let w' := run (__init__ y s e i) w in
  ((forall n, y <> Py.Int n) -> r = Raise (Py.ValueError "Year must be an integer."))
  /\ (forall n, y = Py.Int n -> n < 2000 ->
      r = Raise (Py.ValueError "Year must be 2000 or later."))
  /\ (valid_year y -> ~ valid_summary s ->
      r = Raise (Py.ValueError "Summary must be a non-empty string."))
  /\ (valid_year y -> valid_summary s -> employees w e = false ->
      r = Raise (Py.ValueError "Employee must exist."))
  /\ (r = Ok (length (heap w)) <-> valid_args w y s e)
  /\ same_table w w' /\ all w' = all w.
Proof.
  intros r w'. subst r w'.
  split; [ | split; [ | split; [ | split; [ | split]]]].
  - intros Hy. unfold result, __init__, bind, alloc. by rewrite year_setter_not_int.
  - intros n -> Hn. unfold result, __init__, bind, alloc. by rewrite year_setter_below.
  - apply init_invalid_summary.
  - apply init_invalid_employee.
  - split.
    + intros Hok. destruct (year_cases y) as [Hy | Hy].
      * destruct (summary_cases s) as [Hs | Hs].
        -- destruct (employees w e) eqn:He; [by repeat split | ].
           rewrite (init_invalid_employee _ _ _ _ _ Hy Hs He) in Hok. discriminate Hok.
        -- rewrite (init_invalid_summary _ _ _ _ _ Hy Hs) in Hok. discriminate Hok.
      * destruct (init_invalid_year y s e i w Hy) as [msg Hmsg].
        rewrite Hmsg in Hok. discriminate Hok.
    + intros (Hy & Hs & He). unfold result. by rewrite init_valid.
  - apply init_keeps_table_and_cache.
Qed.

(** X3: [create] on arguments one of which fails its setter raises the
    validation error and persists nothing: no row is inserted, and the cache is
    as before. *)
Theorem create_rejected (y s e : val) (w : World) :
  ~ valid_args w y s e ->
  validation_error (result (create y s e) w)
  /\ reviews (run (create y s e) w) = reviews w
  /\ all (run (create y s e) w) = all w.
Proof.
  intros Hargs.
  destruct (init_invalid y s e None w Hargs) as [msg Hmsg].
  pose proof (init_keeps_table_and_cache y s e None w) as [[Ht _] Hc].
  unfold result, run, create, bind in *.
  destruct (__init__ y s e None w) as [[l | ex] w']; [discriminate Hmsg | ].
  cbn [fst snd] in *. split; [by exists msg | by split].
Qed.

Lemma create_rejected_witness :
  ~ valid_args world1 (Py.Int 1999) (Py.Str (Py.lit "Good work")) (Py.Int 5)
  /\ reviews (run (create (Py.Int 1999) (Py.Str (Py.lit "Good work")) (Py.Int 5)) world1)
     = reviews world1.
Proof.
  assert (H : ~ valid_args world1 (Py.Int 1999) (Py.Str (Py.lit "Good work")) (Py.Int 5)).
  { intros [(n & [= <-] & Hn) _]. lia. }
  split; [exact H | ].
  apply (create_rejected (Py.Int 1999) (Py.Str (Py.lit "Good work")) (Py.Int 5) world1 H).
Defined.








Lemma next_rowid_positive (t : list Row) :
  (forall r, In r t -> 0 <= row_id r) -> 0 < next_rowid t.
Proof.
  destruct t as [ | r0 t]; [done | ]. intros Hall. simpl.
  pose proof (fold_max_ge (row_id r0) (List.map row_id t)).
  pose proof (Hall r0 (or_introl eq_refl)). lia.
Qed.




(** ** [update] and [delete] on the table *)









(** ** Lookups *)


Lemma same_table_id_stable w0 : id_stable (same_table w0).
Proof. by intros f self w _ H. Qed.

Lemma instance_from_db_same_table w0 row : preserves (same_table w0) (instance_from_db row).
Proof.
  intros w Hw. unfold instance_from_db.
  destruct (all w !! Some (row_id row)) as [l | ].
  - revert w Hw.
    change (preserves (same_table w0)
              (year_setter l (row_year row) ;;
               summary_setter l (row_summary row) ;;
               employee_id_setter l (row_employee_id row) ;; ret l)).
    apply (ensures_bind _ _ _ _ _ _
             (year_setter_preserves _ l _ (same_table_id_stable w0))). intros _.
    apply (ensures_bind _ _ _ _ _ _
             (summary_setter_preserves _ l _ (same_table_id_stable w0))). intros _.
    apply (ensures_bind _ _ _ _ _ _
             (employee_id_setter_preserves _ l _ (same_table_id_stable w0))). intros _.
    by apply ensures_ret.
  - revert w Hw.
    change (preserves (same_table w0)
              (review <- __init__ (row_year row) (row_summary row) (row_employee_id row)
                                  (Some (row_id row)) ;;
               i <- get_id review ;; all_setitem i review ;; ret review)).
    apply (ensures_bind _ _ (fun _ => same_table w0)).
    + apply init_preserves; [apply same_table_id_stable | by intros w H].
    + by intros l w Hw.
Qed.

(** X11: the lookups never write the table: after [find_by_id], [get_all] or
    [instance_from_db], whether they return or raise, the rows are the same
    and so is the Employee collaborator. *)
Theorem lookups_keep_table (k : Z) (row : Row) (w : World) :
  same_table w (run (find_by_id k) w)
  /\ same_table w (run get_all w)
  /\ same_table w (run (instance_from_db row) w).
Proof.
  assert (Hw : same_table w w) by by split.
  split; [ | split].
  - apply (preserves_run (same_table w)); [ | done].
    apply find_by_id_preserves. intros w' r Hw' _.
    pose proof (instance_from_db_same_table w r w' Hw') as H.
    by destruct (instance_from_db r w') as [[l | ex] w''].
  - apply (preserves_run (same_table w)); [ | done].
    intros w' Hw'. unfold get_all, bind, sql_select_all.
    by apply (for_each_preserves (same_table w) instance_from_db (reviews w')
                (instance_from_db_same_table w)).
  - by apply (preserves_run (same_table w)); [apply instance_from_db_same_table | ].
Qed.

(** X12: [find_by_id] on a key the cache holds returns the cached object and
    overwrites its year, summary and employee_id with the columns of the row,
    whatever the object held: changes that were not saved by [update] are
    lost.  The id of the object stays.  The key is one the database can bind,
    a 64-bit integer. *)
Theorem find_by_id_refreshes (k : Z) (r : Row) (l : loc) (w : World) :
  int64 k = true ->
  all w !! Some k = Some l ->
  allocated l w ->
  List.find (where_id (Some k)) (reviews w) = Some r ->
  valid_row w r ->
  exists w',
    find_by_id k w = (Ok (Some l), w')
    /\ year l w' = (Ok (row_year r), w')
    /\ summary l w' = (Ok (row_summary r), w')
    /\ employee_id l w' = (Ok (row_employee_id r), w')
    /\ get_id l w' = (Ok (id (deref l w)), w').
Proof.
  intros Hk64 Hl Halloc Hr Hvalid. unfold allocated in Halloc.
  pose proof (find_key _ _ _ Hr) as Hk.
  rewrite (find_by_id_present k r w Hk64 Hr).
  rewrite (instance_from_db_cached r l w) by (by rewrite ?Hk).
  eexists. split; [reflexivity | ].
  unfold year, summary, employee_id, getattr, get_id, deref. cbn [heap set_heap].
  rewrite !list_lookup_total_alter_eq by (rewrite ?length_alter; exact Halloc).
  by repeat split.
Qed.

Lemma find_by_id_refreshes_witness :
  year 0%nat world_unsaved = (Ok (Py.Int 2030), world_unsaved)
  /\ exists w',
      find_by_id 1 world_unsaved = (Ok (Some 0%nat), w')
      /\ year 0%nat w' = (Ok (Py.Int 2023), w').
Proof.
  split; [reflexivity | ].
  destruct (find_by_id_refreshes 1
              (mkRow 1 (Py.Int 2023) (Py.Str (Py.lit "Good work")) (Py.Int 5))
              0%nat world_unsaved)
    as (w' & Hfind & Hyear & _).
  - reflexivity.
  - reflexivity.
  - unfold allocated; simpl; lia.
  - reflexivity.
  - split; [ | split].
    + exists 2023. split; [reflexivity | lia].
    + exists (Py.lit "Good work"). split; [reflexivity | discriminate].
    + reflexivity.
  - by exists w'.
Defined.

(** X13: a lookup that fails half way keeps what it did: when the cache holds
    the key and the row has a valid year and summary but an employee id the
    Employee lookup does not find, [find_by_id] raises the error of the
    [employee_id] setter after it has overwritten the year and the summary of
    the cached object; the employee_id of the object stays.  The key is one
    the database can bind, a 64-bit integer. *)
Theorem find_by_id_failure_keeps_effects (k : Z) (r : Row) (l : loc) (w : World) :
  int64 k = true ->
  all w !! Some k = Some l ->
  allocated l w ->
  List.find (where_id (Some k)) (reviews w) = Some r ->
  valid_year (row_year r) ->
  valid_summary (row_summary r) ->
  employees w (row_employee_id r) = false ->
  exists w',
    find_by_id k w = (Raise (Py.ValueError "Employee must exist."), w')
    /\ year l w' = (Ok (row_year r), w')
    /\ summary l w' = (Ok (row_summary r), w')
    /\ _employee_id (deref l w') = _employee_id (deref l w).
Proof.
  intros Hk64 Hl Halloc Hr Hy Hs He. unfold allocated in Halloc.
  pose proof (find_key _ _ _ Hr) as Hk.
  rewrite (find_by_id_present k r w Hk64 Hr).
  unfold instance_from_db. rewrite Hk, Hl. unfold bind.
  rewrite (year_setter_valid _ _ _ Hy). rewrite (summary_setter_valid _ _ _ Hs).
  rewrite employee_id_setter_invalid by exact He.
  eexists. split; [reflexivity | ].
  unfold year, summary, getattr, deref. cbn [heap set_heap].
  rewrite !list_lookup_total_alter_eq by (rewrite ?length_alter; exact Halloc).
  by repeat split.
Qed.

Lemma find_by_id_failure_keeps_effects_witness :
  year 0%nat world_unsaved_orphan = (Ok (Py.Int 2030), world_unsaved_orphan)
  /\ exists w',
      find_by_id 1 world_unsaved_orphan
      = (Raise (Py.ValueError "Employee must exist."), w')
      /\ year 0%nat w' = (Ok (Py.Int 2023), w').
Proof.
  split; [reflexivity | ].
  destruct (find_by_id_failure_keeps_effects 1
              (mkRow 1 (Py.Int 2023) (Py.Str (Py.lit "Good work")) (Py.Int 5))
              0%nat world_unsaved_orphan)
    as (w' & Hfind & Hyear & _).
  - reflexivity.
  - reflexivity.
  - unfold allocated; simpl; lia.
  - reflexivity.
  - exists 2023. split; [reflexivity | lia].
  - exists (Py.lit "Good work"). split; [reflexivity | discriminate].
  - reflexivity.
  - by exists w'.
Defined.

(** ** [get_all] *)

Lemma valid_row_cases w r : valid_row w r \/ ~ valid_row w r.
Proof.
  destruct (year_cases (row_year r)) as [Hy | Hy];
    [ | right; intros (Hy' & _); by apply (valid_year_not_invalid _ Hy')].
  destruct (summary_cases (row_summary r)) as [Hs | Hs]; [ | right; by intros (_ & Hs' & _)].
  destruct (employees w (row_employee_id r)) eqn:He; [by left | ].
  right. intros (_ & _ & He'). congruence.
Qed.

(** Materialising a valid row in a world whose cache is in order: the object
    returned is the image of the row, and nothing that belongs to another key
    is touched. *)
Lemma instance_from_db_image row w :
  cache_ok w -> valid_row w row ->
  exists l w',
    instance_from_db row w = (Ok l, w')
    /\ image_of w' l row
    /\ cache_ok w'
    /\ same_table w w'
    /\ (forall l0 r0, heap w !! l0 = Some r0 -> id r0 <> Some (row_id row) ->
        heap w' !! l0 = Some r0)
    /\ (forall k, k <> Some (row_id row) -> all w' !! k = all w !! k).
Proof.
  intros Hok Hvalid.
  pose proof (instance_from_db_cache_ok row w Hok) as Hok'.
  destruct (all w !! Some (row_id row)) as [l | ] eqn:Hl.
  - destruct (Hok _ _ Hl) as (z & r0 & [= <-] & Hr0 & Hid).
    rewrite (instance_from_db_cached row l w Hl Hvalid) in Hok' |- *.
    eexists l, _. split; [reflexivity | ].
    split; [ | split; [exact Hok' | split; [done | split; [ | done]]]].
    + split; [ | exact Hl]. cbn [heap set_heap].
      rewrite !list_lookup_alter_eq, Hr0. simpl.
      unfold set_employee_id, set_summary, set_year. simpl. by rewrite Hid.
    + intros l0 r1 Hr1 Hne. cbn [heap set_heap].
      rewrite !list_lookup_alter_ne; [done | | | ]; intros ->; congruence.
  - rewrite (instance_from_db_fresh row w Hl Hvalid) in Hok' |- *.
    eexists _, _. split; [reflexivity | ].
    split; [ | split; [exact Hok' | split; [done | split]]].
    + split; cbn [heap all]; [by rewrite lookup_app_r, Nat.sub_diag | apply lookup_insert_eq].
    + intros l0 r1 Hr1 _. cbn [heap]. by apply lookup_app_l_Some.
    + intros k Hk. cbn [all]. by rewrite lookup_insert_ne.
Qed.

Lemma for_each_images (rows : list Row) :
  forall w,
    cache_ok w -> Forall (valid_row w) rows -> List.NoDup (List.map row_id rows) ->
    exists ls w',
      for_each instance_from_db rows w = (Ok ls, w')
      /\ Forall2 (image_of w') ls rows
      /\ cache_ok w'
      /\ same_table w w'
      /\ (forall l0 r0, heap w !! l0 = Some r0 ->
          (forall r, In r rows -> id r0 <> Some (row_id r)) -> heap w' !! l0 = Some r0)
      /\ (forall k, (forall r, In r rows -> k <> Some (row_id r)) ->
          all w' !! k = all w !! k).
Proof.
  induction rows as [ | r rows IH]; intros w Hok Hvalid Hnodup.
  - exists [], w. by repeat split.
  - apply Forall_cons in Hvalid as [Hr Hrows].
    apply List.NoDup_cons_iff in Hnodup as [Hnotin Hnodup].
    destruct (instance_from_db_image r w Hok Hr)
      as (l & w1 & Hfrom & [Hobj Hcached] & Hok1 & [Ht1 He1] & Hheap1 & Hall1).
    assert (Hrows1 : Forall (valid_row w1) rows).
    { eapply Forall_impl; [exact Hrows | ].
      intros r' (Hy & Hs & He). repeat split; try done. by rewrite He1. }
    destruct (IH w1 Hok1 Hrows1 Hnodup)
      as (ls & w' & Hrest & Himages & Hok' & [Ht' He'] & Hheap' & Hall').
    assert (Hfar : forall r', In r' rows -> row_id r <> row_id r').
    { intros r' Hr' Heq. apply Hnotin. rewrite Heq. by apply in_map. }
    exists (l :: ls), w'. simpl. unfold bind. rewrite Hfrom, Hrest.
    split; [reflexivity | split; [ | split; [exact Hok' | split; [ | split]]]].
    + constructor; [ | exact Himages]. split.
      * apply Hheap'; [exact Hobj | ]. intros r' Hr'. simpl. intros [= Heq].
        by apply (Hfar r').
      * rewrite Hall'; [exact Hcached | ]. intros r' Hr' [= Heq]. by apply (Hfar r').
    + split; congruence.
    + intros l0 r0 Hr0 Hne. apply Hheap'.
      * apply Hheap1; [exact Hr0 | ]. apply Hne. by left.
      * intros r' Hr'. apply Hne. by right.
    + intros k Hk. rewrite Hall' by (intros r' Hr'; apply Hk; by right).
      apply Hall1. apply Hk. by left.
Qed.

Lemma image_in w (ls : list loc) (rows : list Row) l :
  Forall2 (image_of w) ls rows -> In l ls -> exists r, In r rows /\ image_of w l r.
Proof.
  induction 1 as [ | l0 r0 ls rows Himage Hrest IH]; [done | ].
  intros [<- | Hin]; [exists r0; split; [by left | done] | ].
  destruct (IH Hin) as (r & Hr & Hl). exists r. split; [by right | done].
Qed.

Lemma images_distinct w (ls : list loc) (rows : list Row) :
  Forall2 (image_of w) ls rows -> List.NoDup (List.map row_id rows) -> List.NoDup ls.
Proof.
  induction 1 as [ | l r ls rows [Hobj _] Hrest IH]; [constructor | ].
  simpl. intros [Hnotin Hnodup]%List.NoDup_cons_iff.
  constructor; [ | by apply IH].
  intros Hin. apply Hnotin.
  destruct (image_in w ls rows l Hrest Hin) as (r' & Hr' & [Hobj' _]).
  rewrite Hobj in Hobj'. injection Hobj' as Hid _ _ _.
  rewrite Hid. by apply in_map.
Qed.

(** X14: when the cache is in order, the keys of the table are distinct and
    every row passes the setters, [get_all] returns one object per row, in the
    order of the rows and all distinct; each object has the id, year, summary
    and employee_id of its row and is the object the cache holds under that
    key.  The table is unchanged. *)
Theorem get_all_images (w : World) :
  cache_ok w ->
  Forall (valid_row w) (reviews w) ->
  List.NoDup (List.map row_id (reviews w)) ->
  exists ls w',
    get_all w = (Ok ls, w')
    /\ Forall2 (image_of w') ls (reviews w)
    /\ length ls = length (reviews w)
    /\ List.NoDup ls
    /\ reviews w' = reviews w
    /\ cache_ok w'.
Proof.
  intros Hok Hvalid Hnodup.
  destruct (for_each_images (reviews w) w Hok Hvalid Hnodup)
    as (ls & w' & Hrun & Himages & Hok' & [Ht _] & _).
  exists ls, w'. unfold get_all, bind, sql_select_all.
  split; [exact Hrun | split; [exact Himages | ]].
  split; [by apply Forall2_length in Himages | ].
  split; [by apply (images_distinct w' ls (reviews w)) | by split].
Qed.

Lemma world2_cache_ok : cache_ok world2.
Proof.
  apply (preserves_run cache_ok (create (Py.Int 2024) (Py.Str (Py.lit "Better")) (Py.Int 5))
           world1 (create_cache_ok _ _ _)).
  apply (preserves_run cache_ok (create (Py.Int 2023) (Py.Str (Py.lit "Good work")) (Py.Int 5))
           world0 (create_cache_ok _ _ _)).
  apply cache_ok_empty.
Qed.

Lemma get_all_images_witness :
  cache_ok world2
  /\ exists ls w',
      get_all world2 = (Ok ls, w')
      /\ Forall2 (image_of w') ls (reviews world2)
      /\ length ls = length (reviews world2)
      /\ List.NoDup ls
      /\ reviews w' = reviews world2
      /\ cache_ok w'.
Proof.
  split; [exact world2_cache_ok | ].
  apply (get_all_images world2 world2_cache_ok).
  - change (reviews world2)
      with [mkRow 1 (Py.Int 2023) (Py.Str (Py.lit "Good work")) (Py.Int 5);
            mkRow 2 (Py.Int 2024) (Py.Str (Py.lit "Better")) (Py.Int 5)].
    repeat constructor.
    + exists 2023. split; [reflexivity | lia].
    + exists (Py.lit "Good work"). split; [reflexivity | discriminate].
    + exists 2024. split; [reflexivity | lia].
    + exists (Py.lit "Better"). split; [reflexivity | discriminate].
  - change (List.map row_id (reviews world2)) with [1; 2].
    constructor; [intros [H | []]; lia | ].
    constructor; [intros [] | constructor].
Defined.

Lemma instance_from_db_invalid row w :
  ~ valid_row w row -> validation_error (result (instance_from_db row) w).
Proof.
  intros Hinvalid. unfold result, instance_from_db.
  destruct (all w !! Some (row_id row)) as [l | ].
  - unfold bind.
    destruct (year_cases (row_year row)) as [Hy | Hy];
      [rewrite (year_setter_valid _ _ _ Hy)
      | destruct (year_setter_invalid l (row_year row) w Hy) as [msg ->]; by exists msg].
    destruct (summary_cases (row_summary row)) as [Hs | Hs];
      [rewrite (summary_setter_valid _ _ _ Hs)
      | rewrite (summary_setter_invalid _ _ _ Hs); by eexists].
    destruct (employees w (row_employee_id row)) eqn:He; [by destruct Hinvalid | ].
    rewrite employee_id_setter_invalid by exact He. by eexists.
  - destruct (init_invalid (row_year row) (row_summary row) (row_employee_id row)
                (Some (row_id row)) w Hinvalid) as [msg Hmsg].
    unfold result, bind in *.
    destruct (__init__ _ _ _ _ w) as [[l | ex] w']; [discriminate Hmsg | ].
    by exists msg.
Qed.

Lemma instance_from_db_returns row w :
  valid_row w row ->
  exists l w', instance_from_db row w = (Ok l, w') /\ employees w' = employees w.
Proof.
  intros Hvalid. destruct (all w !! Some (row_id row)) as [l | ] eqn:Hl.
  - rewrite (instance_from_db_cached row l w Hl Hvalid). by eexists _, _.
  - rewrite (instance_from_db_fresh row w Hl Hvalid). by eexists _, _.
Qed.

Lemma for_each_invalid (rows : list Row) :
  forall w,
    (exists r, In r rows /\ ~ valid_row w r) ->
    validation_error (result (for_each instance_from_db rows) w).
Proof.
  induction rows as [ | r0 rows IH]; intros w (r & Hin & Hinvalid); [destruct Hin | ].
  unfold result. simpl. unfold bind.
  destruct (valid_row_cases w r0) as [Hr0 | Hr0].
  - destruct (instance_from_db_returns r0 w Hr0) as (l & w1 & -> & Hemp).
    destruct Hin as [-> | Hin]; [done | ].
    destruct (IH w1) as [msg Hmsg].
    { exists r. split; [exact Hin | ]. intros (Hy & Hs & He). apply Hinvalid.
      repeat split; try done. by rewrite <- Hemp. }
    unfold result in Hmsg.
    destruct (for_each instance_from_db rows w1) as [[ls | ex] w']; [discriminate Hmsg | ].
    by exists msg.
  - destruct (instance_from_db_invalid r0 w Hr0) as [msg Hmsg].
    unfold result in Hmsg.
    destruct (instance_from_db r0 w) as [[l | ex] w']; [discriminate Hmsg | ].
    exists msg. simpl in *. congruence.
Qed.

(** X15: one row that fails the setters makes [get_all] fail as a whole: it
    raises the validation error and returns no list, also when every other row
    is valid. *)
Theorem get_all_invalid_row (w : World) :
  (exists r, In r (reviews w) /\ ~ valid_row w r) ->
  validation_error (result get_all w).
Proof.
  intros Hinvalid. unfold result, get_all, bind, sql_select_all.
  apply (for_each_invalid (reviews w) w Hinvalid).
Qed.

Lemma get_all_invalid_row_witness :
  (exists r, In r (reviews world_orphan) /\ ~ valid_row world_orphan r)
  /\ validation_error (result get_all world_orphan).
Proof.
  assert (H : exists r, In r (reviews world_orphan) /\ ~ valid_row world_orphan r).
  { exists (mkRow 1 (Py.Int 2023) (Py.Str (Py.lit "Good work")) (Py.Int 5)).
    split; [by left | ]. intros (_ & _ & He). discriminate He. }
  split; [exact H | ].
  apply (get_all_invalid_row world_orphan H).
Defined.

(** ** The cache invariant *)

(** X16: in a world where every key of the cache is an integer and is the id
    of the object stored under it, the keys agree with the ids, and the
    invariant is kept by [update], [delete], [create], [find_by_id],
    [get_all] and [instance_from_db], whether they return or raise, and by
    [save] on every instance whose id is not 0. *)
Theorem cache_invariant_kept (w : World) :
  cache_ok w ->
  cache_keys_agree w
  /\ (forall self, cache_ok (run (update self) w))
  /\ (forall self, cache_ok (run (delete self) w))
  /\ (forall y s e, cache_ok (run (create y s e) w))
  /\ (forall k, cache_ok (run (find_by_id k) w))
  /\ cache_ok (run get_all w)
  /\ (forall row, cache_ok (run (instance_from_db row) w))
  /\ (forall self, id (deref self w) <> Some 0 -> cache_ok (run (save self) w)).
Proof.
  intros Hok.
  split; [by apply cache_ok_keys_agree | ].
  split; [intros self; by apply preserves_run; [apply update_cache_ok | ] | ].
  split; [intros self; by apply preserves_run; [apply delete_cache_ok | ] | ].
  split; [intros y s e; by apply preserves_run; [apply create_cache_ok | ] | ].
  split; [intros k; by apply preserves_run; [apply find_by_id_cache_ok | ] | ].
  split; [by apply preserves_run; [apply get_all_cache_ok | ] | ].
  split; [intros row; by apply preserves_run; [apply instance_from_db_cache_ok | ] | ].
  intros self Hid. pose proof (save_cache_ok self w (conj Hok Hid)) as H.
  unfold run. by destruct (save self w) as [[[] | ex] w'].
Qed.

Lemma cache_invariant_kept_witness :
  cache_ok world2 /\ cache_keys_agree world2 /\ cache_ok (run get_all world2).
Proof.
  split; [exact world2_cache_ok | ].
  destruct (cache_invariant_kept world2 world2_cache_ok)
    as (Hagree & _ & _ & _ & _ & Hall & _).
  by split.
Defined.

(** ** Positive keys *)

Lemma ids_positive_id_stable : id_stable ids_positive.
Proof.
  intros f self w Hf [Hrows Hheap]. split; [exact Hrows | ].
  intros l o z Ho Hid. simpl in Ho.
  destruct (decide (self = l)) as [-> | Hne].
  - rewrite list_lookup_alter_eq in Ho.
    destruct (heap w !! l) as [o0 | ] eqn:Ho0; [ | discriminate Ho].
    injection Ho as <-. rewrite Hf in Hid. by apply (Hheap l o0).
  - rewrite list_lookup_alter_ne in Ho by done. by apply (Hheap l o).
Qed.

Lemma ids_positive_new w i a b c :
  (forall z, i = Some z -> 0 < z) -> ids_positive w ->
  ids_positive (set_heap (heap w ++ [mkReview i a b c]) w).
Proof.
  intros Hi [Hrows Hheap]. split; [exact Hrows | ].
  intros l o z Ho Hid. simpl in Ho.
  apply lookup_app_Some in Ho as [Ho | [_ Ho]]; [by apply (Hheap l o) | ].
  destruct (l - length (heap w))%nat; [ | discriminate Ho].
  injection Ho as <-. by apply Hi.
Qed.

Lemma instance_from_db_ids_positive row :
  0 < row_id row -> preserves ids_positive (instance_from_db row).
Proof.
  intros Hrow w Hw. unfold instance_from_db.
  destruct (all w !! Some (row_id row)) as [l | ].
  - revert w Hw.
    change (preserves ids_positive
              (year_setter l (row_year row) ;;
               summary_setter l (row_summary row) ;;
               employee_id_setter l (row_employee_id row) ;; ret l)).
    apply (ensures_bind _ _ _ _ _ _
             (year_setter_preserves _ l _ ids_positive_id_stable)). intros _.
    apply (ensures_bind _ _ _ _ _ _
             (summary_setter_preserves _ l _ ids_positive_id_stable)). intros _.
    apply (ensures_bind _ _ _ _ _ _
             (employee_id_setter_preserves _ l _ ids_positive_id_stable)). intros _.
    by apply ensures_ret.
  - revert w Hw.
    change (preserves ids_positive
              (review <- __init__ (row_year row) (row_summary row) (row_employee_id row)
                                  (Some (row_id row)) ;;
               i <- get_id review ;; all_setitem i review ;; ret review)).
    apply (ensures_bind _ _ (fun _ => ids_positive)).
    + apply init_preserves; [apply ids_positive_id_stable | ].
      intros w. apply ids_positive_new. by intros z [= <-].
    + by intros l w Hw.
Qed.

Lemma for_each_preserves_in {A B} P (f : A -> M B) (l : list A) :
  (forall a, In a l -> preserves P (f a)) -> preserves P (for_each f l).
Proof.
  induction l as [ | a l IH]; intros Hf; [by apply ensures_ret | ]. simpl.
  apply (ensures_bind _ _ _ _ _ _ (Hf a (or_introl eq_refl))). intros b.
  apply (ensures_bind _ _ (fun _ => P)); [ | intros bs; by apply ensures_ret].
  apply IH. intros a' Ha'. apply Hf. by right.
Qed.

Lemma update_ids_positive self : preserves ids_positive (update self).
Proof.
  apply update_preserves. intros w y' s' e' [Hrows Hheap].
  split; [ | exact Hheap]. intros r Hr. simpl in Hr.
  apply in_map_iff in Hr as (r0 & <- & Hr0).
  destruct (where_id (id (deref self w)) r0); simpl; by apply Hrows.
Qed.

Lemma delete_ids_positive self : preserves ids_positive (delete self).
Proof.
  intros w [Hrows Hheap].
  destruct (key_ok_cases (id (deref self w))) as [Hkey | (k & Hid & Hk)];
    [ | by rewrite (delete_overflow self k w Hid Hk)].
  rewrite delete_world by exact Hkey. split.
  - intros r Hr. simpl in Hr. unfold others in Hr.
    apply filter_In in Hr as [Hr _]. by apply Hrows.
  - intros l o z Ho Hid. simpl in Ho.
    destruct (decide (self = l)) as [-> | Hne].
    + rewrite list_lookup_alter_eq in Ho.
      destruct (heap w !! l) as [o0 | ]; [ | discriminate Ho].
      injection Ho as <-. discriminate Hid.
    + rewrite list_lookup_alter_ne in Ho by done. by apply (Hheap l o).
Qed.

Lemma save_ids_positive self : preserves ids_positive (save self).
Proof.
  intros w Hw.
  destruct (truthy (id (deref self w))) eqn:Htruthy.
  - rewrite save_truthy by done. by apply update_ids_positive.
  - destruct (save_falsy_cases self w Htruthy)
      as [[ex ->] | (y' & s' & e' & n & Hself & Hn & ->)]; [exact Hw | ].
    destruct Hw as [Hrows Hheap].
    assert (Hpos : 0 < n).
    { destruct (new_rowid_fresh w n Hn) as [_ [-> | Hpos]]; [ | exact Hpos].
      apply next_rowid_positive. intros r Hr. specialize (Hrows r Hr). lia. }
    split.
    + intros r Hr. simpl in Hr. apply in_insert_row in Hr as [-> | Hr]; [done | by apply Hrows].
    + intros l o z Ho Hid. simpl in Ho.
      destruct (decide (self = l)) as [-> | Hne].
      * rewrite list_lookup_alter_eq in Ho.
        destruct (heap w !! l) as [o0 | ]; [ | discriminate Ho].
        injection Ho as <-. simpl in Hid. by injection Hid as <-.
      * rewrite list_lookup_alter_ne in Ho by done. by apply (Hheap l o).
Qed.

Lemma create_ids_positive y s e : preserves ids_positive (create y s e).
Proof.
  unfold create. apply (ensures_bind _ _ (fun _ => ids_positive)).
  - apply init_preserves; [apply ids_positive_id_stable | ].
    intros w. apply ids_positive_new. by intros z.
  - intros l. apply (ensures_bind _ _ _ _ _ _ (save_ids_positive l)).
    intros _. by apply ensures_ret.
Qed.

Lemma find_by_id_ids_positive k : preserves ids_positive (find_by_id k).
Proof.
  apply find_by_id_preserves. intros w r Hw Hr.
  pose proof (instance_from_db_ids_positive r (proj1 Hw r Hr) w Hw) as H.
  by destruct (instance_from_db r w) as [[l | ex] w'].
Qed.

Lemma get_all_ids_positive : preserves ids_positive get_all.
Proof.
  intros w Hw. unfold get_all, bind, sql_select_all.
  apply (for_each_preserves_in ids_positive instance_from_db (reviews w)); [ | exact Hw].
  intros r Hr. apply instance_from_db_ids_positive. by apply (proj1 Hw).
Qed.

(** X17: in a world where every key of the table and every id of an object is
    positive (as in an empty database), [save], [create], [update], [delete],
    [find_by_id] and [get_all] keep that, whether they return or raise; there
    an id is never 0, and [save] keeps the invariant of the cache on every
    instance. *)
Theorem positive_ids_kept (w : World) :
  ids_positive w ->
  (forall self, ids_positive (run (save self) w))
  /\ (forall y s e, ids_positive (run (create y s e) w))
  /\ (forall self, ids_positive (run (update self) w))
  /\ (forall self, ids_positive (run (delete self) w))
  /\ (forall k, ids_positive (run (find_by_id k) w))
  /\ ids_positive (run get_all w)
  /\ (forall self, id (deref self w) <> Some 0)
  /\ (cache_ok w -> forall self, cache_ok (run (save self) w)).
Proof.
  intros Hw.
  assert (Hid : forall self, id (deref self w) <> Some 0).
  { intros self Hid. unfold deref in Hid. rewrite list_lookup_total_alt in Hid.
    destruct (heap w !! self) as [o | ] eqn:Ho; [ | discriminate Hid].
    pose proof (proj2 Hw self o 0 Ho Hid). lia. }
  split; [intros self; by apply preserves_run; [apply save_ids_positive | ] | ].
  split; [intros y s e; by apply preserves_run; [apply create_ids_positive | ] | ].
  split; [intros self; by apply preserves_run; [apply update_ids_positive | ] | ].
  split; [intros self; by apply preserves_run; [apply delete_ids_positive | ] | ].
  split; [intros k; by apply preserves_run; [apply find_by_id_ids_positive | ] | ].
  split; [by apply preserves_run; [apply get_all_ids_positive | ] | ].
  split; [exact Hid | ].
  intros Hok self. pose proof (save_cache_ok self w (conj Hok (Hid self))) as H.
  unfold run. by destruct (save self w) as [[[] | ex] w'].
Qed.

Lemma world0_ids_positive : ids_positive world0.
Proof. split; [intros r [] | intros l o z Ho; discriminate Ho]. Qed.

Lemma positive_ids_kept_witness :
  ids_positive world1 /\ forall self, ids_positive (run (save self) world1).
Proof.
  assert (H : ids_positive world1).
  { apply (preserves_run ids_positive
             (create (Py.Int 2023) (Py.Str (Py.lit "Good work")) (Py.Int 5)) world0
             (create_ids_positive _ _ _)).
    exact world0_ids_positive. }
  split; [exact H | ].
  apply (positive_ids_kept world1 H).
Defined.

(** ** Values and keys the database cannot bind *)

Lemma update_binding_error self y s e ex w :
  _year (deref self w) = Some y ->
  _summary (deref self w) = Some s ->
  _employee_id (deref self w) = Some e ->
  binding_error w y s e = Some ex ->
  update self w = (Raise ex, w).
Proof.
  intros Hy Hs He Hex.
  unfold update, bind, year, summary, employee_id, getattr, get_id, sql_update, store.
  rewrite Hy, Hs, He. unfold bind. unfold binding_error in Hex.
  destruct (column_value w INTEGER y) as [y' | ex1]; [ | congruence].
  destruct (column_value w TEXT s) as [s' | ex2]; [ | congruence].
  destruct (column_value w INTEGER e) as [e' | ex3]; [done | congruence].
Qed.

Lemma save_binding_error self y s e ex w :
  _year (deref self w) = Some y ->
  _summary (deref self w) = Some s ->
  _employee_id (deref self w) = Some e ->
  binding_error w y s e = Some ex ->
  save self w = (Raise ex, w).
Proof.
  intros Hy Hs He Hex.
  destruct (truthy (id (deref self w))) eqn:Hid.
  - rewrite save_truthy by done. by apply (update_binding_error self y s e).
  - unfold save, bind, get_id at 1. rewrite Hid.
    unfold year, summary, employee_id, getattr. rewrite Hy, Hs, He.
    unfold sql_insert, store, bind. unfold binding_error in Hex.
    destruct (column_value w INTEGER y) as [y' | ex1]; [ | congruence].
    destruct (column_value w TEXT s) as [s' | ex2]; [ | congruence].
    destruct (column_value w INTEGER e) as [e' | ex3]; [done | congruence].
Qed.

(** X18: a write of an instance one of whose values the database cannot bind
    (a year outside the signed 64-bit range, a summary with a surrogate code
    point) raises the error of the first such value, and nothing changes:
    [update] and [save], whatever the id of the instance, leave the table,
    the cache and the instance as they were. *)
Theorem write_binding_error (self : loc) (y s e : val) (ex : exn) (w : World) :
  _year (deref self w) = Some y ->
  _summary (deref self w) = Some s ->
  _employee_id (deref self w) = Some e ->
  binding_error w y s e = Some ex ->
  update self w = (Raise ex, w)
  /\ save self w = (Raise ex, w)
  /\ (forall n, y = Py.Int n -> int64 n = false -> ex = Py.OverflowError)
  /\ (forall n t, y = Py.Int n -> int64 n = true -> s = Py.Str t -> encodable t = false ->
      ex = Py.UnicodeEncodeError).
Proof.
  intros Hy Hs He Hex.
  split; [by apply (update_binding_error self y s e) | ].
  split; [by apply (save_binding_error self y s e) | ].
  unfold binding_error, column_value in Hex. split.
  - intros n -> Hn. rewrite Hn in Hex. congruence.
  - intros n t -> Hn -> Ht. rewrite Hn, Ht in Hex. congruence.
Qed.

Lemma write_binding_error_witness :
  year 0%nat world_big_year = (Ok (Py.Int 9223372036854775808), world_big_year)
  /\ update 0%nat world_big_year = (Raise Py.OverflowError, world_big_year)
  /\ save 0%nat world_big_year = (Raise Py.OverflowError, world_big_year).
Proof.
  split; [reflexivity | ].
  destruct (write_binding_error 0%nat (Py.Int 9223372036854775808)
              (Py.Str (Py.lit "Good work")) (Py.Int 5) Py.OverflowError world_big_year
              eq_refl eq_refl eq_refl eq_refl) as (Hu & Hs & _).
  by split.
Defined.

(** X19: [create] on arguments that pass the setters but that the database
    cannot bind raises the error of the binding after the instance was built:
    [OverflowError] for a year outside the signed 64-bit range,
    [UnicodeEncodeError] for a summary with a surrogate code point.  No row
    is inserted and the cache is as before; the instance stays in memory,
    without id. *)
Theorem create_binding_error (y s e : val) (ex : exn) (w : World) :
  valid_args w y s e ->
  binding_error w y s e = Some ex ->
  create y s e w
  = (Raise ex, set_heap (heap w ++ [mkReview None (Some y) (Some s) (Some e)]) w)
  /\ (forall n, y = Py.Int n -> int64 n = false -> ex = Py.OverflowError)
  /\ (forall n t, y = Py.Int n -> int64 n = true -> s = Py.Str t -> encodable t = false ->
      ex = Py.UnicodeEncodeError).
Proof.
  intros (Hy & Hs & He) Hex. split.
  - unfold create, bind. rewrite init_valid by done.
    by rewrite (save_binding_error _ y s e ex) by (by rewrite ?deref_new).
  - unfold binding_error, column_value in Hex. split.
    + intros n -> Hn. rewrite Hn in Hex. congruence.
    + intros n t -> Hn -> Ht. rewrite Hn, Ht in Hex. congruence.
Qed.

Lemma create_binding_error_witness :
  valid_args world0 (Py.Int 2023) (Py.Str [55296%N]) (Py.Int 5)
  /\ create (Py.Int 2023) (Py.Str [55296%N]) (Py.Int 5) world0
     = (Raise Py.UnicodeEncodeError,
        set_heap [mkReview None (Some (Py.Int 2023)) (Some (Py.Str [55296%N]))
                    (Some (Py.Int 5))] world0).
Proof.
  assert (H : valid_args world0 (Py.Int 2023) (Py.Str [55296%N]) (Py.Int 5)).
  { split; [ | split].
    - exists 2023. split; [reflexivity | lia].
    - exists [55296%N]. split; [reflexivity | discriminate].
    - reflexivity. }
  split; [exact H | ].
  apply (create_binding_error (Py.Int 2023) (Py.Str [55296%N]) (Py.Int 5)
           Py.UnicodeEncodeError world0 H eq_refl).
Defined.

(** X20: an instance whose id is outside the signed 64-bit range cannot be
    deleted or updated: [delete] raises [OverflowError] before it has
    changed anything (the id and the cache stay), and so does [update] once
    the three values are bound. *)
Theorem unbindable_id (self : loc) (k : Z) (w : World) :
  id (deref self w) = Some k ->
  int64 k = false ->
  delete self w = (Raise Py.OverflowError, w)
  /\ (forall y s e,
        _year (deref self w) = Some y ->
        _summary (deref self w) = Some s ->
        _employee_id (deref self w) = Some e ->
        binding_error w y s e = None ->
        update self w = (Raise Py.OverflowError, w)).
Proof.
  intros Hid Hk. split; [by apply (delete_overflow self k) | ].
  intros y s e Hy Hs He Hex.
  unfold update, bind, year, summary, employee_id, getattr, get_id, sql_update, store.
  rewrite Hy, Hs, He. unfold bind. unfold binding_error in Hex.
  destruct (column_value w INTEGER y) as [y' | ex1]; [ | congruence].
  destruct (column_value w TEXT s) as [s' | ex2]; [ | congruence].
  destruct (column_value w INTEGER e) as [e' | ex3]; [ | congruence].
  unfold bind_key. by rewrite Hid, Hk.
Qed.

Lemma unbindable_id_witness :
  get_id 0%nat world_big_id = (Ok (Some 9223372036854775808), world_big_id)
  /\ delete 0%nat world_big_id = (Raise Py.OverflowError, world_big_id)
  /\ update 0%nat world_big_id = (Raise Py.OverflowError, world_big_id).
Proof.
  split; [reflexivity | ].
  destruct (unbindable_id 0%nat 9223372036854775808 world_big_id eq_refl eq_refl)
    as [Hd Hu].
  split; [exact Hd | ].
  by apply (Hu (Py.Int 2023) (Py.Str (Py.lit "Good work")) (Py.Int 5)).
Defined.

(** ** An employee id given as a text *)




(** ** The order and the range of the keys *)

Lemma key_order_insert_row r (t : list Row) :
  key_order t -> List.find (where_id (Some (row_id r))) t = None ->
  key_order (insert_row r t).
Proof.
  induction t as [ | r0 t IH]; [by split | ]. simpl. intros [Habove Ht].
  destruct (Z.eqb_spec (row_id r0) (row_id r)) as [ | Hne]; [done | ]. intros Hfree.
  destruct (Z.ltb_spec (row_id r) (row_id r0)) as [Hlt | Hge]; simpl.
  - split; [ | by split]. intros r' [<- | Hr']; [done | ].
    specialize (Habove r' Hr'). lia.
  - split; [ | by apply IH]. intros r' Hr'.
    apply in_insert_row in Hr' as [-> | Hr']; [lia | by apply Habove].
Qed.

Lemma key_order_update key y s e (t : list Row) :
  key_order t ->
  key_order (List.map (fun r => if where_id key r then mkRow (row_id r) y s e else r) t).
Proof.
  induction t as [ | r0 t IH]; [done | ]. simpl. intros [Habove Ht].
  split; [ | by apply IH]. intros r' Hr'.
  apply in_map_iff in Hr' as (r1 & <- & Hr1). specialize (Habove r1 Hr1).
  by destruct (where_id key r0), (where_id key r1).
Qed.

Lemma key_order_others key (t : list Row) : key_order t -> key_order (others key t).
Proof.
  unfold others. induction t as [ | r0 t IH]; [done | ]. simpl. intros [Habove Ht].
  destruct (negb (where_id key r0)); [ | by apply IH].
  split; [ | by apply IH]. intros r' Hr'. apply filter_In in Hr' as [Hr' _].
  by apply Habove.
Qed.

Lemma table_ok_id_stable : id_stable table_ok.
Proof. by intros f self w _ H. Qed.

Lemma table_ok_same_table w w' : reviews w' = reviews w -> table_ok w -> table_ok w'.
Proof. intros Ht [Horder Hkeys]. unfold table_ok, keys_int64. by rewrite Ht. Qed.

Lemma update_table_ok self : preserves table_ok (update self).
Proof.
  apply update_preserves. intros w y' s' e' [Horder Hkeys].
  split; [by apply key_order_update | ].
  intros r Hr. cbn [reviews set_reviews] in Hr.
  apply in_map_iff in Hr as (r0 & <- & Hr0).
  destruct (where_id (id (deref self w)) r0); simpl; by apply Hkeys.
Qed.

Lemma delete_table_ok self : preserves table_ok (delete self).
Proof.
  intros w [Horder Hkeys].
  destruct (key_ok_cases (id (deref self w))) as [Hkey | (k & Hid & Hk)];
    [ | by rewrite (delete_overflow self k w Hid Hk)].
  rewrite delete_world by exact Hkey. split; cbn [reviews].
  - by apply key_order_others.
  - intros r Hr. cbn [reviews] in Hr. apply filter_In in Hr as [Hr _]. by apply Hkeys.
Qed.

Lemma save_table_ok self : preserves table_ok (save self).
Proof.
  intros w Hw.
  destruct (truthy (id (deref self w))) eqn:Htruthy.
  - rewrite save_truthy by done. by apply update_table_ok.
  - destruct (save_falsy_cases self w Htruthy)
      as [[ex ->] | (y' & s' & e' & n & Hself & Hn & ->)]; [exact Hw | ].
    destruct Hw as [Horder Hkeys].
    destruct (new_rowid_fresh w n Hn) as [Hfresh _].
    split; cbn [reviews].
    + by apply key_order_insert_row.
    + intros r Hr. cbn [reviews] in Hr. apply in_insert_row in Hr as [-> | Hr].
      * by apply (new_rowid_int64 w).
      * by apply Hkeys.
Qed.

Lemma create_table_ok y s e : preserves table_ok (create y s e).
Proof.
  unfold create. apply (ensures_bind _ _ (fun _ => table_ok)).
  - apply init_preserves; [apply table_ok_id_stable | by intros w H].
  - intros self. apply (ensures_bind _ _ _ _ _ _ (save_table_ok self)).
    intros _. by apply ensures_ret.
Qed.

Lemma instance_from_db_table_ok row : preserves table_ok (instance_from_db row).
Proof.
  intros w Hw. pose proof (instance_from_db_same_table w row w (conj eq_refl eq_refl)) as H.
  destruct (instance_from_db row w) as [[l | ex] w'];
    destruct H as [Ht _]; by apply (table_ok_same_table w).
Qed.

Lemma find_by_id_table_ok k : preserves table_ok (find_by_id k).
Proof.
  apply find_by_id_preserves. intros w r Hw _.
  pose proof (instance_from_db_table_ok r w Hw) as H.
  by destruct (instance_from_db r w) as [[l | ex] w'].
Qed.

Lemma get_all_table_ok : preserves table_ok get_all.
Proof.
  intros w Hw. unfold get_all, bind, sql_select_all.
  by apply (for_each_preserves table_ok instance_from_db (reviews w)
              instance_from_db_table_ok).
Qed.

Lemma key_order_NoDup (t : list Row) : key_order t -> List.NoDup (List.map row_id t).
Proof.
  induction t as [ | r t IH]; [intros _; constructor | ]. simpl. intros [Habove Ht].
  constructor; [ | by apply IH]. intros Hin.
  apply in_map_iff in Hin as (r' & Hk & Hr'). specialize (Habove r' Hr'). lia.
Qed.

(** X22: a table whose rows are in the order of their keys, each key a
    64-bit integer held by one row, stays so under every method, whether the
    method returns or raises: [save], [create], [update], [delete],
    [find_by_id], [get_all] and [instance_from_db].  In such a table no two
    rows have the same key. *)
Theorem table_order_kept (w : World) :
  table_ok w ->
  (forall self, table_ok (run (save self) w))
  /\ (forall y s e, table_ok (run (create y s e) w))
  /\ (forall self, table_ok (run (update self) w))
  /\ (forall self, table_ok (run (delete self) w))
  /\ (forall k, table_ok (run (find_by_id k) w))
  /\ table_ok (run get_all w)
  /\ (forall row, table_ok (run (instance_from_db row) w))
  /\ List.NoDup (List.map row_id (reviews w)).
Proof.
  intros Hw.
  split; [intros self; by apply preserves_run; [apply save_table_ok | ] | ].
  split; [intros y s e; by apply preserves_run; [apply create_table_ok | ] | ].
  split; [intros self; by apply preserves_run; [apply update_table_ok | ] | ].
  split; [intros self; by apply preserves_run; [apply delete_table_ok | ] | ].
  split; [intros k; by apply preserves_run; [apply find_by_id_table_ok | ] | ].
  split; [by apply preserves_run; [apply get_all_table_ok | ] | ].
  split; [intros row; by apply preserves_run; [apply instance_from_db_table_ok | ] | ].
  apply key_order_NoDup, Hw.
Qed.

Lemma table_order_kept_witness :
  table_ok world1
  /\ forall y s e, table_ok (run (create y s e) world1).
Proof.
  assert (H : table_ok world1).
  { apply (preserves_run table_ok
             (create (Py.Int 2023) (Py.Str (Py.lit "Good work")) (Py.Int 5)) world0
             (create_table_ok _ _ _)).
    split; [exact I | intros r []]. }
  split; [exact H | ].
  destruct (table_order_kept world1 H) as (_ & Hcreate & _). exact Hcreate.
Defined.

(** ** A table that holds the largest key *)



